(** * prcadmin: the crawler of the administrative divisions

    A shallow embedding of [prcadmin.py]: the page analysis
    ([analyze_page]), the worker loop ([worker]), the CSV writer
    ([writer]) and the driver ([run_queue]) with its two
    [asyncio.Queue]s.

    Conventions of the embedding.
    - A Python [str] is a list of Unicode code points.
    - The parsed document is BeautifulSoup's element tree; the parser
      itself and [urllib.parse.urljoin] are library functions, the fields
      of the class [Library].
    - A raised exception is a value of [result]; the effectful code runs in
      a small monad [M] over the shared state that also logs, in program
      order, the effectful calls it makes.
    - The event loop is a transition function [step] driven by a schedule:
      a coroutine runs without interruption between two suspension
      points. *)

From Stdlib Require Import List NArith ZArith Bool Lia Permutation.
From Stdlib Require String Ascii DecimalString DecimalZ.
From AAC_tactics Require Import AAC.
From AAC_tactics Require Instances.
Import ListNotations String.StringSyntax Ascii.AsciiSyntax.
Delimit Scope string_scope with string.
Delimit Scope char_scope with char.
Bind Scope string_scope with String.string.
Bind Scope char_scope with Ascii.ascii.

Set Implicit Arguments.

(** ** Python strings *)

Module Py.

Definition char : Type := N.
Definition str : Type := list char.

(** A literal of the source: a string, a character. *)
Definition lit (s : String.string) : str :=
  map Ascii.N_of_ascii (String.list_ascii_of_string s).
Definition chr (a : Ascii.ascii) : char := Ascii.N_of_ascii a.

Definition str_eqb (a b : str) : bool :=
  if list_eq_dec N.eq_dec a b then true else false.

(** [c.isspace()] for one code point (the Unicode white space of CPython). *)
Definition isspace (c : char) : bool :=
  ((9 <=? c) && (c <=? 13) || (28 <=? c) && (c <=? 32)
   || (c =? 133) || (c =? 160) || (c =? 5760)
   || (8192 <=? c) && (c <=? 8202)
   || (c =? 8232) || (c =? 8233) || (c =? 8239) || (c =? 8287)
   || (c =? 12288))%N.

Fixpoint lstrip (s : str) : str :=
  match s with
  | [] => []
  | c :: r => if isspace c then lstrip r else s
  end.

Definition rstrip (s : str) : str := rev (lstrip (rev s)).

(** [s.strip()] *)
Definition strip (s : str) : str := rstrip (lstrip s).

(** [s.split(sep)] for a separator of one character. *)
Fixpoint split (sep : char) (s : str) : list str :=
  match s with
  | [] => [[]]
  | c :: r =>
      if (c =? sep)%N then [] :: split sep r
      else match split sep r with
           | w :: ws => (c :: w) :: ws
           | [] => [[c]]
           end
  end.

(** [s.startswith(p)] *)
Fixpoint startswith (p s : str) : bool :=
  match p, s with
  | [], _ => true
  | _ :: _, [] => false
  | a :: p', b :: s' => (a =? b)%N && startswith p' s'
  end.

(** [needle in hay] *)
Fixpoint contains (needle hay : str) : bool :=
  startswith needle hay
  || match hay with
     | [] => false
     | _ :: t => contains needle t
     end.

(** The white-space separated words of [s]: how a [class] attribute is cut
    into its classes. *)
Fixpoint words_aux (cur : str) (s : str) : list str :=
  match s with
  | [] => match cur with [] => [] | _ => [rev cur] end
  | c :: r =>
      if isspace c
      then match cur with [] => words_aux [] r | _ => rev cur :: words_aux [] r end
      else words_aux (c :: cur) r
  end.

Definition words (s : str) : list str := words_aux [] s.

(** [l[0]] and [l[-1]]: [IndexError] on the empty list is the caller's
    business, these are used on lists known to be non-empty. *)
Definition first (l : list str) : str := hd [] l.
Definition last_ (l : list str) : str := last l [].

(** [d.get(key)] on a dictionary of strings, kept as an association list. *)
Fixpoint dict_get (key : str) (d : list (str * str)) : option str :=
  match d with
  | [] => None
  | (k, v) :: rest => if str_eqb k key then Some v else dict_get key rest
  end.

(** [sep.join(l)] for a separator of one character. *)
Fixpoint join (sep : char) (l : list str) : str :=
  match l with
  | [] => []
  | [w] => w
  | w :: ws => w ++ sep :: join sep ws
  end.

(** [c * n] *)
Definition times (c : char) (n : nat) : str := repeat c n.

(** What a string is cut into by its first occurrence of [sep]. *)
Fixpoint before (sep : char) (s : str) : str :=
  match s with
  | [] => []
  | c :: r => if (c =? sep)%N then [] else c :: before sep r
  end.

End Py.

(** ** Exceptions *)

Inductive exn : Type :=
| AttributeError   (* an attribute or method looked up on [None] *)
| IndexError       (* [l[0]] on an empty list *)
| ValueError.      (* [task_done()] called too many times *)

Inductive result (A : Type) : Type :=
| Ok (a : A)
| Raise (e : exn).

Arguments Ok {A} a.
Arguments Raise {A} e.

Definition rbind {A B} (r : result A) (k : A -> result B) : result B :=
  match r with
  | Ok a => k a
  | Raise e => Raise e
  end.

Declare Scope result_scope.
Delimit Scope result_scope with result.
Notation "x <- r ;; k" := (rbind r (fun x => k))
  (at level 61, r at next level, right associativity) : result_scope.
Notation "' p <- r ;; k" := (rbind r (fun x => let 'p := x in k))
  (at level 61, p pattern, r at next level, right associativity) : result_scope.

(** [x.attr] where [x] may be [None] *)
Definition deref {A} (x : option A) : result A :=
  match x with
  | Some a => Ok a
  | None => Raise AttributeError
  end.

(** ** The element tree of BeautifulSoup *)

Module Soup.
Import Py.

#[warnings="-register-all"]
Inductive element : Type :=
| NavigableString (s : str)
| Tag (name : str) (attrs : list (str * str)) (contents : list element).

(** [tag.descendants]: every element below [e], in document order. *)
Fixpoint descendants (e : element) : list element :=
  match e with
  | NavigableString _ => []
  | Tag _ _ contents => flat_map (fun c => c :: descendants c) contents
  end.

(** [tag.text]: the strings below the element, concatenated. *)
Fixpoint text (e : element) : str :=
  match e with
  | NavigableString s => s
  | Tag _ _ contents => flat_map text contents
  end.

(** [tag.get(key)] *)
Definition get (e : element) (key : str) : option str :=
  match e with
  | NavigableString _ => None
  | Tag _ attrs _ => dict_get key attrs
  end.

(** Whether [e] is a tag called [name] and, when [class_] is given, has
    that class among the classes of its [class] attribute. *)
Definition matches (name : str) (class_ : option str) (e : element) : bool :=
  match e with
  | NavigableString _ => false
  | Tag n attrs _ =>
      str_eqb n name
      && match class_ with
         | None => true
         | Some c =>
             match dict_get (lit "class") attrs with
             | Some v => existsb (str_eqb c) (words v)
             | None => false
             end
         end
  end.

(** [tag.find_all(name, class_=...)] *)
Definition find_all (name : str) (class_ : option str) (e : element)
  : list element :=
  filter (matches name class_) (descendants e).

(** [tag.find(name)] *)
Definition find (name : str) (e : element) : option element :=
  List.find (matches name None) (descendants e).

End Soup.

(** ** The libraries the crawler calls

    [BeautifulSoup(html, "html.parser")] and [urllib.parse.urljoin] are not
    code of this repository: the development is generic in them.  Both are
    taken as total functions, as the crawler takes them. *)

Class Library : Type := {
  BeautifulSoup : Py.str -> Soup.element;
  urljoin : Py.str -> Py.str -> Py.str
}.

(** ** Page extraction: the second half of [analyze_page] *)

Import Py Soup.
Local Open Scope result_scope.

Notation "# s" := (lit s) (at level 1, format "# s").

(** A division as the code builds it: [(code, name, level)]. *)
Definition division : Type := (str * str * str)%type.

Definition admin_types : list str :=
  [#"province"; #"city"; #"county"; #"town"; #"village"].

(** The cells of a row: [tr.find_all("td")]. *)
Definition cells (tr : element) : list element := find_all #"td" None tr.

(** The rows of a level: [bs4_obj.find_all("tr", class_=admin_type + "tr")]. *)
Definition rows (bs4_obj : element) (admin_type : str) : list element :=
  find_all #"tr" (Some (admin_type ++ #"tr")) bs4_obj.

(** The [for admin_type in (...)] loop with its [break] and [else]:
    [None] is the [else] branch. *)
Fixpoint select_level (bs4_obj : element) (types : list str)
  : option (str * list element) :=
  match types with
  | [] => None
  | admin_type :: rest =>
      match rows bs4_obj admin_type with
      | [] => select_level bs4_obj rest
      | trs => Some (admin_type, trs)
      end
  end.

(** A [for] loop that threads its variables and stops at the first
    exception. *)
Fixpoint for_each {A B} (l : list A) (body : B -> A -> result B) (acc : B)
  : result B :=
  match l with
  | [] => Ok acc
  | x :: rest => acc' <- body acc x ;; for_each rest body acc'
  end.

(** [l[0]] and [l[-1]] *)
Definition item0 {A} (l : list A) : result A :=
  match l with
  | [] => Raise IndexError
  | x :: _ => Ok x
  end.

Definition item_last {A} (l : list A) : result A :=
  match l with
  | [] => Raise IndexError
  | x :: _ => Ok (last l x)
  end.

(** [href.split("/")[-1].split(".")[0]] *)
Definition stem (href : str) : str :=
  first (split (chr ".") (last_ (split (chr "/") href))).

(** The body of [for td in tds] on a province page.  The second
    [td.find("a").get("href")] evaluates to the same string as the first. *)
Definition province_td (admin_type : str) (acc : list division * list str)
  (td : element) : result (list division * list str) :=
  let '(divisions, subpages) := acc in
  let name := text td in
  a <- deref (find #"a" td) ;;
  href <- deref (get a #"href") ;;
  let code := stem href ++ times (chr "0") 10 in
  Ok (divisions ++ [(code, name, admin_type)], subpages ++ [href]).

(** The truth value of [tds[0].find("a") and tds[0].find("a").get("href")],
    with the link target when it is true. *)
Definition link_target (td : element) : option str :=
  match find #"a" td with
  | None => None
  | Some a =>
      match get a #"href" with
      | None => None
      | Some [] => None
      | Some href => Some href
      end
  end.

(** The [else] branch of the row loop. *)
Definition other_tr (admin_type : str) (acc : list division * list str)
  (tds : list element) : result (list division * list str) :=
  let '(divisions, subpages) := acc in
  td0 <- item0 tds ;;
  let code := text td0 in
  tdl <- item_last tds ;;
  let name := text tdl in
  let divisions := divisions ++ [(code, name, admin_type)] in
  match link_target td0 with
  | Some href => Ok (divisions, subpages ++ [href])
  | None => Ok (divisions, subpages)
  end.

(** The body of [for tr in trs]. *)
Definition row (admin_type : str) (acc : list division * list str)
  (tr : element) : result (list division * list str) :=
  let tds := cells tr in
  if str_eqb admin_type #"province"
  then for_each tds (province_td admin_type) acc
  else other_tr admin_type acc tds.

(** Lines 67 to 88: the rows of the level that was found. *)
Definition extract_rows `{Library} (admin_type : str) (trs : list element)
  (url : str) : result (list division * list str) :=
  '(divisions, subpages) <- for_each trs (row admin_type) ([], []) ;;
  (* make subpages absolute url based on the current url *)
  Ok (divisions, map (urljoin url) subpages).

(** Lines 59 to 88 of [analyze_page], on the parsed document. *)
Definition extract `{Library} (bs4_obj : element) (url : str)
  : result (list division * list str) :=
  match select_level bs4_obj admin_types with
  | None =>
      (* No administrative division found. *)
      Ok ([], [])
  | Some (admin_type, trs) => extract_rows admin_type trs url
  end.

(** ** [asyncio.Queue] without a size limit *)

Module Queue.

Record t (A : Type) : Type := Build {
  items : list A;            (* [_queue] *)
  unfinished_tasks : nat     (* [_unfinished_tasks] *)
}.

Arguments Build {A} items unfinished_tasks.

Definition empty {A} : t A := Build [] 0.

(** [put_nowait(x)]; [await put(x)] does the same and never suspends, the
    queue having no size limit. *)
Definition put_nowait {A} (q : t A) (x : A) : t A :=
  Build (items q ++ [x]) (S (unfinished_tasks q)).

(** [get_nowait()]: [None] stands for [QueueEmpty]; [await get()] suspends
    the caller as long as this is [None]. *)
Definition get_nowait {A} (q : t A) : option (A * t A) :=
  match items q with
  | [] => None
  | x :: rest => Some (x, Build rest (unfinished_tasks q))
  end.

(** [task_done()] *)
Definition task_done {A} (q : t A) : result (t A) :=
  match unfinished_tasks q with
  | O => Raise ValueError
  | S n => Ok (Build (items q) n)
  end.

(** Whether [await join()] goes through. *)
Definition joined {A} (q : t A) : bool := Nat.eqb (unfinished_tasks q) 0.

End Queue.

(** ** The state the tasks share, and the effects *)

Record shared : Type := Shared {
  queue : Queue.t str;                   (* the queue of pages to scan *)
  queue_writer : Queue.t division;       (* the queue of divisions to save *)
  csvfile : option (list (list str));    (* the rows of the file, once it is open *)
  t_scanned : nat;
  t_saved : nat
}.

(** The effectful calls, as they are logged in program order. *)
Inductive event : Type :=
| Get (url : str)                (* [url = await queue.get()] *)
| LogException (url : str)       (* [logger.exception("Failed to get ...")] *)
| LogWarning (url : str)         (* [logger.warning("Too fast to get ...")] *)
| Sleep (seconds : nat)          (* [await asyncio.sleep(seconds)] *)
| PutWriter (d : division)       (* [await queue_writer.put(division)] *)
| Put (url : str)                (* [queue.put_nowait(url)], [await queue.put(subpage)] *)
| Scanned                        (* [t_scanned.update(1)] *)
| TaskDone (url : str)           (* [queue.task_done()] by the worker that holds [url] *)
| OpenFile                       (* [open(fn, "w")] *)
| WriteRow (r : list str)        (* [writer.writeheader()], [writer.writerow(...)] *)
| GetWriter (d : division)       (* [division = await queue.get()] in [writer] *)
| TaskDoneWriter                 (* [queue.task_done()] in [writer] *)
| Saved.                         (* [t_saved.update(1)] *)

(** A computation on the shared state: the state it leaves, the calls it
    made, and its value or the exception that ended it. *)
Definition M (A : Type) : Type := shared -> shared * list event * result A.

Definition ret {A} (a : A) : M A := fun s => (s, [], Ok a).

Definition bind {A B} (m : M A) (k : A -> M B) : M B :=
  fun s =>
    let '(s1, ev1, r) := m s in
    match r with
    | Ok a => let '(s2, ev2, r2) := k a s1 in (s2, ev1 ++ ev2, r2)
    | Raise e => (s1, ev1, Raise e)
    end.

Definition lift {A} (r : result A) : M A := fun s => (s, [], r).

Definition tell (e : event) : M unit := fun s => (s, [e], Ok tt).

Declare Scope M_scope.
Delimit Scope M_scope with M.
Notation "x <- m ;; k" := (bind m (fun x => k))
  (at level 61, m at next level, right associativity) : M_scope.
Notation "' p <- m ;; k" := (bind m (fun x => let 'p := x in k))
  (at level 61, p pattern, m at next level, right associativity) : M_scope.
Notation "m ;; k" := (bind m (fun _ => k))
  (at level 61, right associativity) : M_scope.

Local Open Scope M_scope.

Fixpoint for_ {A} (l : list A) (body : A -> M unit) : M unit :=
  match l with
  | [] => ret tt
  | x :: rest => body x ;; for_ rest body
  end.

Definition queue_put (url : str) : M unit :=
  fun s =>
    (Shared (Queue.put_nowait (queue s) url) (queue_writer s) (csvfile s)
       (t_scanned s) (t_saved s),
     [Put url], Ok tt).

Definition queue_writer_put (d : division) : M unit :=
  fun s =>
    (Shared (queue s) (Queue.put_nowait (queue_writer s) d) (csvfile s)
       (t_scanned s) (t_saved s),
     [PutWriter d], Ok tt).

Definition queue_task_done (url : str) : M unit :=
  fun s =>
    match Queue.task_done (queue s) with
    | Ok q =>
        (Shared q (queue_writer s) (csvfile s) (t_scanned s) (t_saved s),
         [TaskDone url], Ok tt)
    | Raise e => (s, [], Raise e)
    end.

Definition queue_writer_task_done : M unit :=
  fun s =>
    match Queue.task_done (queue_writer s) with
    | Ok q =>
        (Shared (queue s) q (csvfile s) (t_scanned s) (t_saved s),
         [TaskDoneWriter], Ok tt)
    | Raise e => (s, [], Raise e)
    end.

Definition t_scanned_update (n : nat) : M unit :=
  fun s =>
    (Shared (queue s) (queue_writer s) (csvfile s) (t_scanned s + n) (t_saved s),
     [Scanned], Ok tt).

Definition t_saved_update (n : nat) : M unit :=
  fun s =>
    (Shared (queue s) (queue_writer s) (csvfile s) (t_scanned s) (t_saved s + n),
     [Saved], Ok tt).

(** [open(fn, "w")]: the file is created or emptied. *)
Definition open_w : M unit :=
  fun s =>
    (Shared (queue s) (queue_writer s) (Some []) (t_scanned s) (t_saved s),
     [OpenFile], Ok tt).

(** One more row at the end of the open file. *)
Definition write_row (r : list str) : M unit :=
  fun s =>
    (Shared (queue s) (queue_writer s)
       (match csvfile s with Some rows => Some (rows ++ [r]) | None => None end)
       (t_scanned s) (t_saved s),
     [WriteRow r], Ok tt).

(** ** [analyze_page] *)

(** What [session.get(url)] and [response.text()] come to: the text of the
    response, or [aiohttp.ClientError], the one exception [analyze_page]
    catches. *)
Inductive response : Type :=
| Text (html : str)
| ClientError.

Definition marker : str := #"jsjiami.com.v6".

Definition analyze_page `{Library} (resp : response) (url : str)
  : M (list division * list str) :=
  match resp with
  | ClientError =>
      tell (LogException url) ;;
      tell (Sleep 5) ;;
      ret ([], [url])
  | Text html =>
      if contains marker html then
        (* too fast, retry after 1 min *)
        tell (LogWarning url) ;;
        tell (Sleep 60) ;;
        ret ([], [url])
      else
        lift (extract (BeautifulSoup html) url)
  end.

(** ** [worker] *)

(** One turn of the [while True] loop from the point where the response is
    there: everything after [url = await queue.get()]. *)
Definition worker_resume `{Library} (resp : response) (url : str) : M unit :=
  '(divisions, subpages) <- analyze_page resp url ;;
  (* save divisions *)
  for_ divisions queue_writer_put ;;
  for_ subpages queue_put ;;
  t_scanned_update 1 ;;
  queue_task_done url.

(** ** [writer] *)

Definition fieldnames : list str := [#"code"; #"name"; #"level"].

(** [csv.DictWriter]: a row is the values of the dictionary in the order of
    [fieldnames], the empty string for a missing key. *)
Definition dict_to_list (rowdict : list (str * str)) : list str :=
  map (fun k => match dict_get k rowdict with Some v => v | None => [] end)
    fieldnames.

Definition writeheader : M unit := write_row fieldnames.

Definition writerow (rowdict : list (str * str)) : M unit :=
  write_row (dict_to_list rowdict).

(** [writer] up to its first [await queue.get()]. *)
Definition writer_start : M unit :=
  open_w ;;
  writeheader.

(** One turn of the loop of [writer], from the point where
    [division = await queue.get()] has its value. *)
Definition writer_resume (d : division) : M unit :=
  let '(d0, d1, d2) := d in
  writerow [(#"code", strip d0); (#"name", strip d1); (#"level", d2)] ;;
  queue_writer_task_done ;;
  t_saved_update 1.

(** ** [run_queue] and the event loop *)

Inductive task : Type :=
| Idle                 (* suspended in [queue.get()] *)
| Busy (url : str)     (* suspended in [analyze_page(url)] *)
| Failed (e : exn).    (* ended by an exception *)

Inductive writer_task : Type :=
| Created              (* not run yet *)
| Waiting              (* suspended in [queue.get()] *)
| Ended (e : exn).     (* ended by an exception *)

Record system : Type := System {
  sh : shared;
  workers : list task;
  sink : writer_task;
  trace : list event      (* every call made so far, in order *)
}.

(** [run_queue(url, fn, ntasks)] up to [await queue.join()]. *)
Definition run_queue (url : str) (ntasks : Z) : system :=
  System
    (Shared (Queue.put_nowait Queue.empty url) Queue.empty None 0 0)
    (repeat Idle (Z.to_nat ntasks))
    Created
    [Put url].

(** The two [join()]s of [run_queue]. *)
Definition queue_joined (s : system) : bool := Queue.joined (queue (sh s)).
Definition queue_writer_joined (s : system) : bool :=
  Queue.joined (queue_writer (sh s)).

Fixpoint update {A} (i : nat) (x : A) (l : list A) : list A :=
  match l, i with
  | [], _ => []
  | _ :: rest, O => x :: rest
  | y :: rest, S j => y :: update j x rest
  end.

(** What the event loop can do next.  A step runs one task from a
    suspension point to the next one.  A worker is suspended in
    [queue.get()] or in [analyze_page], at the request or at the sleep
    that follows it; the sleep comes before any change of the shared
    state, so the turn of the worker is one step, taken when the sleep is
    over.  The writer is suspended in [queue.get()]. *)
Inductive action : Type :=
| Dequeue (i : nat)                    (* [queue.get()] of worker [i] returns *)
| Respond (i : nat) (resp : response)  (* the request of worker [i] ends *)
| SinkStart                            (* the writer task runs for the first time *)
| SinkRow.                             (* [queue.get()] of the writer returns *)

Definition after (r : result unit) : task :=
  match r with
  | Ok _ => Idle
  | Raise e => Failed e
  end.

Definition after_writer (r : result unit) : writer_task :=
  match r with
  | Ok _ => Waiting
  | Raise e => Ended e
  end.

Definition step `{Library} (s : system) (a : action) : option system :=
  match a with
  | Dequeue i =>
      match nth_error (workers s) i, Queue.get_nowait (queue (sh s)) with
      | Some Idle, Some (url, q) =>
          Some (System
                  (Shared q (queue_writer (sh s)) (csvfile (sh s))
                     (t_scanned (sh s)) (t_saved (sh s)))
                  (update i (Busy url) (workers s))
                  (sink s)
                  (trace s ++ [Get url]))
      | _, _ => None
      end
  | Respond i resp =>
      match nth_error (workers s) i with
      | Some (Busy url) =>
          let '(sh', evs, r) := worker_resume resp url (sh s) in
          Some (System sh' (update i (after r) (workers s)) (sink s)
                  (trace s ++ evs))
      | _ => None
      end
  | SinkStart =>
      match sink s with
      | Created =>
          let '(sh', evs, r) := writer_start (sh s) in
          Some (System sh' (workers s) (after_writer r) (trace s ++ evs))
      | _ => None
      end
  | SinkRow =>
      match sink s, Queue.get_nowait (queue_writer (sh s)) with
      | Waiting, Some (d, q) =>
          let '(sh', evs, r) :=
            writer_resume d
              (Shared (queue (sh s)) q (csvfile (sh s))
                 (t_scanned (sh s)) (t_saved (sh s))) in
          Some (System sh' (workers s) (after_writer r)
                  (trace s ++ GetWriter d :: evs))
      | _, _ => None
      end
  end.

(** The network: which responses a request for a page may get. *)
Definition network : Type := str -> response -> bool.

Definition permitted (net : network) (s : system) (a : action) : bool :=
  match a with
  | Respond i resp =>
      match nth_error (workers s) i with
      | Some (Busy url) => net url resp
      | _ => false
      end
  | _ => true
  end.

(** A run of the event loop along a schedule. *)
Fixpoint exec `{Library} (net : network) (s : system) (sched : list action)
  : option system :=
  match sched with
  | [] => Some s
  | a :: rest =>
      if permitted net s a then
        match step s a with
        | Some s' => exec net s' rest
        | None => None
        end
      else None
  end.

Definition reachable `{Library} (net : network) (url : str) (ntasks : Z)
  (s : system) : Prop :=
  exists sched, exec net (run_queue url ntasks) sched = Some s.

(** ** What the trace tells *)

Definition dequeued (tr : list event) : list str :=
  flat_map (fun e => match e with Get u => [u] | _ => [] end) tr.

Definition enqueued (tr : list event) : list str :=
  flat_map (fun e => match e with Put u => [u] | _ => [] end) tr.

Definition processed (tr : list event) : list str :=
  flat_map (fun e => match e with TaskDone u => [u] | _ => [] end) tr.

Definition emitted (tr : list event) : list division :=
  flat_map (fun e => match e with PutWriter d => [d] | _ => [] end) tr.

Definition consumed (tr : list event) : list division :=
  flat_map (fun e => match e with GetWriter d => [d] | _ => [] end) tr.


(** The pages the workers hold. *)
Definition in_flight (ws : list task) : list str :=
  flat_map (fun w => match w with Busy u => [u] | _ => [] end) ws.

(** ** The notions the statements are about *)

(** A cell that has a link with a target: [td.find("a").get("href")] is a
    string. *)
Definition has_target (td : element) : bool :=
  match find #"a" td with
  | Some a => match get a #"href" with Some _ => true | None => false end
  | None => false
  end.




(** A row with a cell at least. *)
Definition has_cells (tr : element) : bool :=
  match cells tr with [] => false | _ => true end.



(** The link targets a row of a level below the provinces contributes. *)
Definition row_links (tr : element) : list str :=
  match cells tr with
  | [] => []
  | td0 :: _ =>
      match link_target td0 with
      | Some href => [href]
      | None => []
      end
  end.

(** The target of the link of a cell, the empty string if it has none. *)
Definition target (td : element) : str :=
  match find #"a" td with
  | Some a => match get a #"href" with Some href => href | None => [] end
  | None => []
  end.

(** The division a cell of a province page stands for. *)
Definition province_division (admin_type : str) (td : element) : division :=
  (stem (target td) ++ times (chr "0") 10, text td, admin_type).

(** The division a row of another page stands for: the text of its first
    cell and the text of its last cell. *)
Definition other_division (admin_type : str) (tr : element) : division :=
  let tds := cells tr in
  (text (hd (NavigableString []) tds),
   text (last tds (NavigableString [])),
   admin_type).


(** The link targets of a page as they stand in it, before they are
    joined to the address of the page. *)
Definition raw_links (bs4_obj : element) : list str :=
  match select_level bs4_obj admin_types with
  | None => []
  | Some (admin_type, trs) =>
      if str_eqb admin_type #"province"
      then map target (flat_map cells trs)
      else flat_map row_links trs
  end.

(** The state a turn of the worker leaves when the page gave [divs] and
    [subs] and [n] pages were unfinished before the links were added. *)
Definition turn_state (s : shared) (divs : list division) (subs : list str)
  (n : nat) : shared :=
  Shared
    (Queue.Build (Queue.items (queue s) ++ subs) n)
    (Queue.Build (Queue.items (queue_writer s) ++ divs)
       (Queue.unfinished_tasks (queue_writer s) + length divs))
    (csvfile s) (t_scanned s + 1) (t_saved s).

(** No white space at either end. *)
Definition trimmed (s : str) : bool :=
  match s with
  | [] => true
  | c :: _ => negb (isspace c) && negb (isspace (last s c))
  end.

(** The row the writer makes of a division. *)
Definition row_of (d : division) : list str :=
  let '(code, name, level) := d in [strip code; strip name; level].

(** The fields of a division. *)
Definition code_of (d : division) : str := fst (fst d).
Definition name_of (d : division) : str := snd (fst d).
Definition level_of (d : division) : str := snd d.

(** An event of [analyze_page]: a log line or a sleep. *)
Definition quiet (e : event) : bool :=
  match e with
  | LogException _ | LogWarning _ | Sleep _ => true
  | _ => false
  end.

(** The workers that an exception ended. *)
Definition failed (ws : list task) : list exn :=
  flat_map (fun w => match w with Failed e => [e] | _ => [] end) ws.

(** ** A site that is a finite tree *)

#[warnings="-register-all"]
Inductive tree : Type :=
| Node (url : str) (children : list tree).

Definition root (t : tree) : str :=
  match t with Node url _ => url end.

(** The addresses of the pages of a tree, one for each node. *)
Fixpoint urls (t : tree) : list str :=
  match t with
  | Node url children => url :: flat_map urls children
  end.

Definition list_eqb (a b : list str) : bool :=
  if list_eq_dec (list_eq_dec N.eq_dec) a b then true else false.

Definition response_eqb (a b : response) : bool :=
  match a, b with
  | Text x, Text y => str_eqb x y
  | ClientError, ClientError => true
  | _, _ => false
  end.

(** A network with no failure: the request for a page always gets the
    response [web] has for it. *)
Definition served (web : str -> response) : network :=
  fun url resp => response_eqb resp (web url).

(** [web] is the tree [t] below the address [root t]: every page of the
    tree is served with a body that has no marker, its extraction raises
    nothing, and its links are the addresses of its children. *)
Fixpoint site `{Library} (web : str -> response) (t : tree) : bool :=
  match t with
  | Node url children =>
      match web url with
      | Text html =>
          negb (contains marker html)
          && match extract (BeautifulSoup html) url with
             | Ok (_, subs) =>
                 list_eqb subs (map root children)
                 && forallb (site web) children
             | Raise _ => false
             end
      | ClientError => false
      end
  end.

(** ** [main] *)

(** [str(n)] for an integer, as [format] writes it: the decimal digits,
    after a minus sign when [n] is negative. *)
Definition str_of_int (n : Z) : str :=
  lit (DecimalString.NilEmpty.string_of_int (Z.to_int n)).

(** [TOP_URL.format(year=year)] *)
Definition TOP_URL (year : Z) : str :=
  #"http://www.stats.gov.cn/sj/tjbz/tjyqhdmhcxhfdm/" ++ str_of_int year ++ #"/".

(** What [parser.parse_args()] returns. *)
Module Args.
Record t : Type := Build { year : Z; file : str; ntasks : Z }.
End Args.

(** [main], once the arguments are parsed: the state in which
    [run_queue(url, args.file, ntasks=args.ntasks)] waits for its join.
    The development has one file, whatever its name. *)
Definition main (args : Args.t) : system :=
  let url := TOP_URL (Args.year args) in
  run_queue url (Args.ntasks args).

(** ** More notions for the statements *)

(** White space only. *)
Definition blank (s : str) : bool := forallb isspace s.

(** The pages that are on the queue or in the hands of a worker. *)
Definition pending (s : system) : list str :=
  Queue.items (queue (sh s)) ++ in_flight (workers s).

(** The divisions [analyze_page] returns for a page when the network
    serves [web]: none when the request fails, when the body has the
    marker or when the extraction raises. *)
Definition page_divisions `{Library} (web : str -> response) (url : str)
  : list division :=
  match web url with
  | Text html =>
      if contains marker html then []
      else match extract (BeautifulSoup html) url with
           | Ok (divisions, _) => divisions
           | Raise _ => []
           end
  | ClientError => []
  end.


(** A page for which the network only has failures and bodies with the
    marker. *)
Definition always_retried (net : network) (url : str) : Prop :=
  forall resp,
    net url resp = true ->
    resp = ClientError
    \/ exists html, resp = Text html /\ contains marker html = true.

(** The steps of the workers and of the writer in a schedule. *)
Definition is_dequeue (a : action) : bool :=
  match a with Dequeue _ => true | _ => false end.

Definition is_respond (a : action) : bool :=
  match a with Respond _ _ => true | _ => false end.

Definition is_sink_start (a : action) : bool :=
  match a with SinkStart => true | _ => false end.

Definition is_sink_row (a : action) : bool :=
  match a with SinkRow => true | _ => false end.

Definition count (f : action -> bool) (sched : list action) : nat :=
  length (filter f sched).

Definition worker_steps (sched : list action) : nat :=
  count is_dequeue sched + count is_respond sched.

(** The rows of the file after the first, none when the file is not open. *)
Definition data_rows (s : system) : list (list str) :=
  match csvfile (sh s) with
  | Some (_ :: data) => data
  | _ => []
  end.

(** ** A small site to run the definitions on *)

Module Example.

Definition td (contents : list element) : element := Tag #"td" [] contents.

Definition a (href : String.string) (label : String.string) : element :=
  Tag #"a" [(#"href", #href)] [NavigableString #label].

Definition tr (class_ : String.string) (contents : list element)
  : element :=
  Tag #"tr" [(#"class", #class_)] contents.

Definition document (contents : list element) : element :=
  Tag #"[document]" [] [Tag #"table" [] contents].

(** The top page: two provinces in one row. *)
Definition top : element :=
  document
    [tr "provincetr" [td [a "11.html" "Beijing"]; td [a "12.html" "Tianjin"]]].

(** A city page of one row. *)
Definition cities : element :=
  document
    [tr "citytr" [td [a "11/1101.html" "110100000000"];
                  td [a "11/1101.html" "Beijing City"]]].

(** A town page: the second row has no link, the name of the first has
    white space around it. *)
Definition towns : element :=
  document
    [tr "towntr" [td [a "01/110101001.html" "110101001000"];
                  td [a "01/110101001.html" " Donghuamen "]];
     tr "towntr" [td [NavigableString #"110101002000"];
                  td [NavigableString #"Jingshan"]]].

(** A page of two levels. *)
Definition mixed : element :=
  document
    [tr "countytr" [td [NavigableString #"110101000000"];
                    td [NavigableString #"Dongcheng"]];
     tr "citytr" [td [NavigableString #"110100000000"];
                  td [NavigableString #"Beijing City"]]].

(** A page with no table of divisions. *)
Definition leaf : element := document [].

(** A city row with no cell, a province cell with no link, a province
    link of three digits, a first cell whose second link only has a target. *)
Definition no_cell : element := document [tr "citytr" []].
Definition no_link : element :=
  document [tr "provincetr" [td [NavigableString #"Beijing"]]].
Definition long_stem : element :=
  document [tr "provincetr" [td [a "110.html" "Beijing"]]].
Definition two_links : element :=
  document
    [tr "citytr" [td [Tag #"a" [] [NavigableString #"1101"];
                      a "11/1101.html" "00000000"];
                  td [NavigableString #"Beijing City"]]].

(** The parser of the examples: it knows the pages by their text. *)
Definition pages : list (str * element) :=
  [(#"<top>", top); (#"<cities>", cities); (#"<towns>", towns);
   (#"<mixed>", mixed); (#"<no_cell>", no_cell); (#"<no_link>", no_link);
   (#"<long_stem>", long_stem); (#"<two_links>", two_links);
   (#"<top> jsjiami.com.v6", top)].

Fixpoint parse (known : list (str * element)) (html : str) : element :=
  match known with
  | [] => leaf
  | (h, e) :: rest => if str_eqb h html then e else parse rest html
  end.

(** [urljoin] for a relative path: the base up to its last slash, then the
    path. *)
Fixpoint upto_slash (s : str) : str :=
  match s with
  | [] => []
  | c :: r => if (c =? chr "/")%N then s else upto_slash r
  end.

Definition resolve (base href : str) : str :=
  rev (upto_slash (rev base)) ++ href.

Definition library : Library :=
  {| BeautifulSoup := parse pages; urljoin := resolve |}.

(** The document of a page known by its text. *)
Definition bs (html : String.string) : element := parse pages #html.

Definition top_url : str := #"http://www.stats.gov.cn/sj/2023/".

Definition page (path : String.string) : str := top_url ++ #path.

(** A site of four pages: the top page, the cities of the first province,
    and two pages with no table. *)
Definition web (url : str) : response :=
  if str_eqb url top_url then Text #"<top>"
  else if str_eqb url (page "11.html") then Text #"<cities>"
  else Text #"<leaf>".

Definition site_tree : tree :=
  Node top_url
    [Node (page "11.html") [Node (page "11/1101.html") []];
     Node (page "12.html") []].

(** A run of two workers on that site. *)
Definition schedule : list action :=
  [Dequeue 0; SinkStart; Respond 0 (Text #"<top>");
   Dequeue 0; Dequeue 1;
   Respond 1 (Text #"<leaf>"); Respond 0 (Text #"<cities>");
   SinkRow; Dequeue 1; SinkRow; Respond 1 (Text #"<leaf>"); SinkRow].

Definition state_after (sched : list action) : system :=
  match @exec library (served web) (run_queue top_url 2) sched with
  | Some s => s
  | None => run_queue top_url 2
  end.

(** The end of the run, and its state when the first worker has taken the
    top page. *)
Definition finished : system := state_after schedule.
Definition started : system := state_after [Dequeue 0].

(** A file with its first row, and a division to write. *)
Definition open_file : shared :=
  Shared Queue.empty (Queue.Build [] 1) (Some [fieldnames]) 0 0.

Definition donghuamen : division :=
  (#"110101001000", #" Donghuamen ", #"town").

(** An address that starts with a scheme. *)
Definition absolute (url : str) : Prop := startswith #"http://" url = true.

(** A network that fails every request, and one that may answer anything. *)
Definition down : network := fun _ resp => response_eqb resp ClientError.
Definition anything : network := fun _ _ => true.

(** A run on the network that is down: both workers have tried the top
    page once. *)
Definition retries : list action :=
  [Dequeue 0; Respond 0 ClientError; Dequeue 1; Respond 1 ClientError].

(** A run in which the page of the cities has a row with no cell, and
    what the other worker and the writer still do after that. *)
Definition crash : list action :=
  [Dequeue 0; SinkStart; Respond 0 (Text #"<top>");
   Dequeue 0; Respond 0 (Text #"<no_cell>")].

Definition after_crash : list action :=
  [Dequeue 1; Respond 1 (Text #"<leaf>"); SinkRow; SinkRow].

Definition run_on (net : network) (ntasks : Z) (sched : list action)
  : system :=
  match @exec library net (run_queue top_url ntasks) sched with
  | Some s => s
  | None => run_queue top_url ntasks
  end.

(** The run on the site of four pages, cut where the writer has written
    its second row. *)
Definition schedule_start : list action := firstn 8 schedule.
Definition schedule_end : list action := skipn 8 schedule.
Definition midway : system := state_after schedule_start.

(** A cell of the top page, with its link, and a division with no white
    space around its fields. *)
Definition beijing_link : element := a "11.html" "Beijing".
Definition beijing_cell : element := td [beijing_link].

Definition jingshan : division :=
  (#"110101002000", #"Jingshan", #"town").

(** The arguments of [prcadmin -y 2023 -f 2023.csv]. *)
Definition args_2023 : Args.t := Args.Build 2023 #"2023.csv" 5.

End Example.

(** * Properties *)

Unset Implicit Arguments.

(** ** Strings *)

Section Strings.

Lemma str_eqb_eq (a b : str) : str_eqb a b = true <-> a = b.
Proof.
  unfold str_eqb. destruct (list_eq_dec N.eq_dec a b); split; congruence.
Qed.

Lemma str_eqb_refl (a : str) : str_eqb a a = true.
Proof. now apply str_eqb_eq. Qed.

Lemma str_eqb_neq (a b : str) : str_eqb a b = false <-> a <> b.
Proof.
  unfold str_eqb. destruct (list_eq_dec N.eq_dec a b); split; congruence.
Qed.

Lemma split_not_nil (sep : char) (s : str) : split sep s <> [].
Proof.
  induction s as [|c r IH]; simpl; [discriminate|].
  destruct (c =? sep)%N; [discriminate|].
  destruct (split sep r); [contradiction|discriminate].
Qed.

(** [s.split(sep)[0]] is [s] up to its first [sep]. *)
Lemma first_split (sep : char) (s : str) : first (split sep s) = before sep s.
Proof.
  induction s as [|c r IH]; simpl; [reflexivity|].
  destruct (c =? sep)%N; [reflexivity|].
  pose proof (split_not_nil sep r) as Hne.
  destruct (split sep r) as [|w ws]; [contradiction|].
  simpl in *. now rewrite IH.
Qed.

Lemma before_free (sep : char) (s : str) : ~ In sep (before sep s).
Proof.
  induction s as [|c r IH]; simpl; [tauto|].
  destruct (N.eqb_spec c sep) as [E|E]; simpl; [tauto|].
  intros [H|H]; [congruence|tauto].
Qed.

(** [s] is what comes before its first [sep], then nothing or a rest that
    starts with [sep]. *)
Lemma before_prefix (sep : char) (s : str) :
  s = before sep s \/ exists rest, s = before sep s ++ sep :: rest.
Proof.
  induction s as [|c r IH]; simpl; [now left|].
  destruct (N.eqb_spec c sep) as [E|E].
  - right. exists r. now subst.
  - destruct IH as [IH|[rest IH]].
    + left. congruence.
    + right. exists rest. simpl. congruence.
Qed.

Lemma split_free (sep : char) (s : str) :
  Forall (fun w => ~ In sep w) (split sep s).
Proof.
  induction s as [|c r IH]; simpl.
  - constructor; [tauto|constructor].
  - destruct (N.eqb_spec c sep) as [E|E].
    + constructor; [tauto|exact IH].
    + destruct (split sep r) as [|w ws]; [repeat constructor; simpl; intuition congruence|].
      inversion IH; subst. constructor; [|assumption].
      simpl. intuition congruence.
Qed.

(** [sep.join(s.split(sep))] is [s]. *)
Lemma join_split (sep : char) (s : str) : join sep (split sep s) = s.
Proof.
  induction s as [|c r IH]; simpl; [reflexivity|].
  pose proof (split_not_nil sep r) as Hne.
  destruct (N.eqb_spec c sep) as [E|E].
  - destruct (split sep r) as [|w ws]; [contradiction|].
    simpl in *. now subst.
  - destruct (split sep r) as [|w ws]; [contradiction|].
    destruct ws; simpl in *; congruence.
Qed.

Lemma join_last (sep : char) (l : list str) :
  l <> [] ->
  join sep l = last_ l \/ exists dir, join sep l = dir ++ sep :: last_ l.
Proof.
  unfold last_. induction l as [|w ws IH]; [congruence|]. intros _.
  destruct ws as [|w' ws']; [now left|].
  right. destruct IH as [IH|[dir IH]]; [discriminate|..].
  - exists w. change (join sep (w :: w' :: ws')) with (w ++ sep :: join sep (w' :: ws')).
    rewrite IH. reflexivity.
  - exists (w ++ sep :: dir).
    change (join sep (w :: w' :: ws')) with (w ++ sep :: join sep (w' :: ws')).
    rewrite IH, <- app_assoc. reflexivity.
Qed.

(** [s.split(sep)[-1]] has no [sep] and is the end of [s], after nothing
    or after a [sep]. *)
Lemma last_split (sep : char) (s : str) :
  ~ In sep (last_ (split sep s))
  /\ (s = last_ (split sep s)
      \/ exists dir, s = dir ++ sep :: last_ (split sep s)).
Proof.
  split.
  - pose proof (split_free sep s) as Hf. pose proof (split_not_nil sep s) as Hne.
    unfold last_. rewrite Forall_forall in Hf. apply Hf.
    destruct (split sep s) as [|w ws]; [contradiction|].
    clear. revert w. induction ws as [|w' ws IH]; intros w; [now left|].
    right. apply IH.
  - pose proof (join_last sep _ (split_not_nil sep s)) as H.
    rewrite join_split in H. exact H.
Qed.

End Strings.

Section Strip.

Lemma lstrip_head (s : str) (c : char) (r : str) :
  lstrip s = c :: r -> isspace c = false.
Proof.
  induction s as [|a s IH]; simpl; [discriminate|].
  destruct (isspace a) eqn:Ha; [exact IH|].
  intros E. inversion E; subst. exact Ha.
Qed.

Lemma lstrip_snoc (l : str) (c : char) :
  isspace c = false -> exists p, lstrip (l ++ [c]) = p ++ [c].
Proof.
  intros Hc. induction l as [|a l [p IH]]; simpl.
  - rewrite Hc. now exists [].
  - destruct (isspace a).
    + now exists p.
    + now exists (a :: l).
Qed.

Lemma strip_trimmed (s : str) : trimmed (strip s) = true.
Proof.
  unfold strip, rstrip.
  destruct (lstrip s) as [|c r] eqn:Hl; [reflexivity|].
  pose proof (lstrip_head _ _ _ Hl) as Hc.
  destruct (lstrip_snoc (rev r) c Hc) as [p Hp].
  simpl rev. rewrite Hp, rev_app_distr. simpl.
  rewrite Hc. simpl.
  destruct p as [|x p'].
  - simpl. now rewrite Hc.
  - apply lstrip_head in Hp.
    simpl rev.
    destruct (rev p' ++ [x]) as [|y q] eqn:E; [now destruct (rev p')|].
    rewrite <- E, last_last. now rewrite Hp.
Qed.

End Strip.

(** ** The loops of the extraction in closed form *)

Section Loops.

Lemma select_level_none (bs4_obj : element) (types : list str) :
  select_level bs4_obj types = None <->
  forall t, In t types -> rows bs4_obj t = [].
Proof.
  induction types as [|t0 rest IH]; simpl.
  - split; [intros _ t []|reflexivity].
  - destruct (rows bs4_obj t0) as [|tr trs] eqn:Hr.
    + rewrite IH. split.
      * intros H t [<-|Hin]; [exact Hr|now apply H].
      * intros H t Hin. apply H. now right.
    + split; [discriminate|].
      intros H. specialize (H t0 (or_introl eq_refl)). congruence.
Qed.

Lemma select_level_some (bs4_obj : element) (types : list str) (t : str)
  (trs : list element) :
  select_level bs4_obj types = Some (t, trs) <->
  exists before after,
    types = before ++ t :: after
    /\ (forall t', In t' before -> rows bs4_obj t' = [])
    /\ rows bs4_obj t = trs /\ trs <> [].
Proof.
  induction types as [|t0 rest IH]; simpl.
  - split; [discriminate|].
    intros (before & after & E & _). now destruct before.
  - destruct (rows bs4_obj t0) as [|tr0 trs0] eqn:Hr.
    + rewrite IH. split.
      * intros (before & after & -> & Hb & Ht & Hne).
        exists (t0 :: before), after. repeat split; try assumption.
        intros t' [<-|Hin]; [exact Hr|now apply Hb].
      * intros (before & after & E & Hb & Ht & Hne).
        destruct before as [|b before]; simpl in E; inversion E; subst.
        -- congruence.
        -- exists before, after. repeat split; try assumption.
           intros t' Hin. apply Hb. now right.
    + split.
      * intros E. inversion E; subst.
        exists [], rest. repeat split; [intros t' []|exact Hr|discriminate].
      * intros (before & after & E & Hb & Ht & Hne).
        destruct before as [|b before]; simpl in E; inversion E; subst.
        -- congruence.
        -- specialize (Hb b (or_introl eq_refl)). congruence.
Qed.

Lemma province_td_eq (t : str) (d0 : list division) (s0 : list str)
  (td : element) :
  province_td t (d0, s0) td =
  if has_target td
  then Ok (d0 ++ [province_division t td], s0 ++ [target td])
  else Raise AttributeError.
Proof.
  unfold province_td, has_target, province_division, target.
  destruct (find #"a" td) as [a|]; simpl; [|reflexivity].
  destruct (get a #"href") as [href|]; reflexivity.
Qed.

Lemma province_loop (t : str) (tds : list element) :
  forall d0 s0,
    for_each tds (province_td t) (d0, s0) =
    if forallb has_target tds
    then Ok (d0 ++ map (province_division t) tds, s0 ++ map target tds)
    else Raise AttributeError.
Proof.
  induction tds as [|td tds IH]; intros d0 s0; cbn [for_each flat_map map forallb].
  - now rewrite !app_nil_r.
  - rewrite province_td_eq.
    destruct (has_target td); simpl; [|reflexivity].
    rewrite IH. destruct (forallb has_target tds); [|reflexivity].
    now rewrite <- !app_assoc.
Qed.

Lemma row_loop_province (trs : list element) :
  forall d0 s0,
    for_each trs (row #"province") (d0, s0) =
    if forallb (fun tr => forallb has_target (cells tr)) trs
    then Ok (d0 ++ map (province_division #"province") (flat_map cells trs),
             s0 ++ map target (flat_map cells trs))
    else Raise AttributeError.
Proof.
  induction trs as [|tr trs IH]; intros d0 s0; cbn [for_each flat_map map forallb].
  - now rewrite !app_nil_r.
  - unfold row at 1. rewrite str_eqb_refl, province_loop.
    destruct (forallb has_target (cells tr)); simpl; [|reflexivity].
    rewrite IH.
    destruct (forallb _ trs); [|reflexivity].
    now rewrite !map_app, <- !app_assoc.
Qed.

Lemma last_cons_default {A} (x : A) (l : list A) (d d' : A) :
  last (x :: l) d = last (x :: l) d'.
Proof.
  revert x. induction l as [|y l IH]; intros x; [reflexivity|].
  change (last (y :: l) d = last (y :: l) d'). apply IH.
Qed.

Lemma last_cons_in {A} (x : A) (l : list A) (d : A) :
  In (last (x :: l) d) (x :: l).
Proof.
  revert x. induction l as [|y l IH]; intros x; [now left|].
  right. change (In (last (y :: l) d) (y :: l)). apply IH.
Qed.

Lemma other_tr_eq (t : str) (d0 : list division) (s0 : list str)
  (tr : element) :
  other_tr t (d0, s0) (cells tr) =
  match cells tr with
  | [] => Raise IndexError
  | _ => Ok (d0 ++ [other_division t tr], s0 ++ row_links tr)
  end.
Proof.
  unfold other_tr, other_division, row_links.
  destruct (cells tr) as [|td0 tds]; [reflexivity|].
  cbn [item0 item_last rbind hd].
  rewrite (last_cons_default td0 tds td0 (NavigableString [])).
  destruct (link_target td0); [reflexivity|].
  now rewrite app_nil_r.
Qed.

Lemma row_loop_other (t : str) (trs : list element) :
  str_eqb t #"province" = false ->
  forall d0 s0,
    for_each trs (row t) (d0, s0) =
    if forallb has_cells trs
    then Ok (d0 ++ map (other_division t) trs, s0 ++ flat_map row_links trs)
    else Raise IndexError.
Proof.
  intros Ht. induction trs as [|tr trs IH]; intros d0 s0; cbn [for_each flat_map map forallb].
  - now rewrite !app_nil_r.
  - unfold row at 1. rewrite Ht, other_tr_eq. unfold has_cells at 1.
    destruct (cells tr) as [|td0 tds] eqn:Hc; simpl; [reflexivity|].
    rewrite IH. destruct (forallb has_cells trs); [|reflexivity].
    now rewrite <- !app_assoc.
Qed.





End Loops.

(** ** The extraction *)

Section Extraction.

Context {L : Library}.

Lemma extract_rows_province (trs : list element) (url : str) :
  extract_rows #"province" trs url =
  if forallb (fun tr => forallb has_target (cells tr)) trs
  then Ok (map (province_division #"province") (flat_map cells trs),
           map (urljoin url) (map target (flat_map cells trs)))
  else Raise AttributeError.
Proof.
  unfold extract_rows. rewrite row_loop_province.
  destruct (forallb _ trs); reflexivity.
Qed.

Lemma extract_rows_other (t : str) (trs : list element) (url : str) :
  t <> #"province" ->
  extract_rows t trs url =
  if forallb has_cells trs
  then Ok (map (other_division t) trs,
           map (urljoin url) (flat_map row_links trs))
  else Raise IndexError.
Proof.
  intros Ht. apply str_eqb_neq in Ht.
  unfold extract_rows. rewrite row_loop_other by exact Ht.
  destruct (forallb has_cells trs); reflexivity.
Qed.

(** Whatever the level, the divisions of a page carry the level of the
    page, and its links are joined to the address of the page. *)
Lemma extract_rows_ok (t : str) (trs : list element) (url : str)
  (divs : list division) (subs : list str) :
  extract_rows t trs url = Ok (divs, subs) ->
  Forall (fun d => level_of d = t) divs
  /\ exists hrefs, subs = map (urljoin url) hrefs.
Proof.
  destruct (list_eq_dec N.eq_dec t #"province") as [->|Ht].
  - rewrite extract_rows_province.
    destruct (forallb _ trs); [|discriminate].
    intros E. inversion E; subst. split.
    + apply Forall_forall. intros d Hin. apply in_map_iff in Hin.
      now destruct Hin as (td & <- & _).
    + eexists. reflexivity.
  - rewrite extract_rows_other by exact Ht.
    destruct (forallb has_cells trs); [|discriminate].
    intros E. inversion E; subst. split.
    + apply Forall_forall. intros d Hin. apply in_map_iff in Hin.
      now destruct Hin as (td & <- & _).
    + eexists. reflexivity.
Qed.




End Extraction.

(** ** The claims on the extraction *)

Section ExtractionClaims.

Context {L : Library}.

(** C2.  The levels are tried in the order province, city, county, town,
    village.  The extraction of a page works on the rows of the first
    level that has a row and on nothing else, so that every division it
    returns carries that level; when no level has a row it returns two
    empty lists and raises nothing.  This is what [analyze_page] returns
    for a body that has no marker. *)
Theorem extract_first_level (html url : str) :
  admin_types = [#"province"; #"city"; #"county"; #"town"; #"village"]
  /\ ((forall t, In t admin_types -> rows (BeautifulSoup html) t = []) ->
      extract (BeautifulSoup html) url = Ok ([], []))
  /\ (forall before t after,
        admin_types = before ++ t :: after ->
        (forall t', In t' before -> rows (BeautifulSoup html) t' = []) ->
        rows (BeautifulSoup html) t <> [] ->
        extract (BeautifulSoup html) url
        = extract_rows t (rows (BeautifulSoup html) t) url
        /\ forall divs subs,
            extract (BeautifulSoup html) url = Ok (divs, subs) ->
            Forall (fun d => level_of d = t) divs)
  /\ (contains marker html = false ->
      forall s,
        analyze_page (Text html) url s
        = (s, [], extract (BeautifulSoup html) url)).
Proof.
  split; [reflexivity|]. split; [|split].
  - intros Hnone. unfold extract.
    apply select_level_none in Hnone. now rewrite Hnone.
  - intros before t after Hsplit Hbefore Hrows.
    assert (Hsel : select_level (BeautifulSoup html) admin_types
                   = Some (t, rows (BeautifulSoup html) t)).
    { apply select_level_some. exists before, after. tauto. }
    assert (Hex : extract (BeautifulSoup html) url
                  = extract_rows t (rows (BeautifulSoup html) t) url).
    { unfold extract. now rewrite Hsel. }
    split; [exact Hex|].
    intros divs subs Hok. rewrite Hex in Hok.
    now apply extract_rows_ok in Hok.
  - intros Hm s. unfold analyze_page. now rewrite Hm.
Qed.

(** C3, as amended.  On a province page every cell gives one division;
    its code is the part of the link target after the last slash and
    before the first dot that follows, with ten zeros appended.  The code
    is as long as that part plus ten: it has 12 characters exactly when
    the part has two. *)
Theorem province_code (html url : str) (divs : list division)
  (subs : list str) :
  rows (BeautifulSoup html) #"province" <> [] ->
  extract (BeautifulSoup html) url = Ok (divs, subs) ->
  let tds := flat_map cells (rows (BeautifulSoup html) #"province") in
  divs = map (province_division #"province") tds
  /\ Forall
       (fun td =>
          let href := target td in
          let file := last_ (split (chr "/") href) in
          let d := province_division #"province" td in
          has_target td = true
          /\ (href = file \/ exists dir, href = dir ++ chr "/" :: file)
          /\ ~ In (chr "/") file
          /\ (file = stem href \/ exists ext, file = stem href ++ chr "." :: ext)
          /\ ~ In (chr ".") (stem href)
          /\ code_of d = stem href ++ repeat (chr "0") 10
          /\ length (code_of d) = length (stem href) + 10
          /\ (length (code_of d) = 12 <-> length (stem href) = 2))
       tds.
Proof.
  intros Hrows Hok tds.
  assert (Hsel : select_level (BeautifulSoup html) admin_types
                 = Some (#"province", rows (BeautifulSoup html) #"province")).
  { apply select_level_some. exists [], (tl admin_types).
    repeat split; [intros t' []|exact Hrows]. }
  unfold extract in Hok. rewrite Hsel, extract_rows_province in Hok.
  fold tds in Hok.
  destruct (forallb _ (rows _ _)) eqn:Hall; [|discriminate].
  inversion Hok; subst divs subs. split; [reflexivity|].
  apply Forall_forall. intros td Hin.
  assert (Htarget : has_target td = true).
  { unfold tds in Hin. apply in_flat_map in Hin. destruct Hin as (tr & Htr & Htd).
    rewrite forallb_forall in Hall. specialize (Hall tr Htr).
    rewrite forallb_forall in Hall. now apply Hall. }
  destruct (last_split (chr "/") (target td)) as [Hfree Hend].
  assert (Hlen : length (code_of (province_division #"province" td))
                 = length (stem (target td)) + 10).
  { unfold province_division, code_of, times. cbn [fst].
    now rewrite length_app, repeat_length. }
  assert (Hstem : stem (target td)
                  = before (chr ".") (last_ (split (chr "/") (target td))))
    by apply first_split.
  cbv zeta. split; [exact Htarget|]. split; [exact Hend|].
  split; [exact Hfree|]. split; [rewrite Hstem; apply before_prefix|].
  split; [rewrite Hstem; apply before_free|].
  split; [reflexivity|]. split; [exact Hlen|]. lia.
Qed.


End ExtractionClaims.

(** ** The worker and the writer in closed form *)

Section Tasks.

Context {L : Library}.

Lemma analyze_page_error (url : str) (s : shared) :
  analyze_page ClientError url s
  = (s, [LogException url; Sleep 5], Ok ([], [url])).
Proof. reflexivity. Qed.

Lemma analyze_page_marked (html url : str) (s : shared) :
  contains marker html = true ->
  analyze_page (Text html) url s
  = (s, [LogWarning url; Sleep 60], Ok ([], [url])).
Proof. intros H. unfold analyze_page. now rewrite H. Qed.

Lemma analyze_page_text (html url : str) (s : shared) :
  contains marker html = false ->
  analyze_page (Text html) url s = (s, [], extract (BeautifulSoup html) url).
Proof. intros H. unfold analyze_page. now rewrite H. Qed.

Lemma for_queue_writer_put (divs : list division) :
  forall s,
    for_ divs queue_writer_put s
    = (Shared (queue s)
         (Queue.Build (Queue.items (queue_writer s) ++ divs)
            (Queue.unfinished_tasks (queue_writer s) + length divs))
         (csvfile s) (t_scanned s) (t_saved s),
       map PutWriter divs, Ok tt).
Proof.
  induction divs as [|d divs IH]; intros s.
  - simpl. unfold ret. rewrite app_nil_r, Nat.add_0_r.
    now destruct s as [q [qi qu] f a b].
  - cbn [for_]. unfold bind at 1. cbn [queue_writer_put].
    rewrite IH. cbn. rewrite <- app_assoc, Nat.add_succ_r. reflexivity.
Qed.

Lemma for_queue_put (subs : list str) :
  forall s,
    for_ subs queue_put s
    = (Shared
         (Queue.Build (Queue.items (queue s) ++ subs)
            (Queue.unfinished_tasks (queue s) + length subs))
         (queue_writer s) (csvfile s) (t_scanned s) (t_saved s),
       map Put subs, Ok tt).
Proof.
  induction subs as [|u subs IH]; intros s.
  - simpl. unfold ret. rewrite app_nil_r, Nat.add_0_r.
    now destruct s as [[qi qu] q f a b].
  - cbn [for_]. unfold bind at 1. cbn [queue_put].
    rewrite IH. cbn. rewrite <- app_assoc, Nat.add_succ_r. reflexivity.
Qed.

Lemma worker_resume_raise (resp : response) (url : str) (s : shared)
  (evs : list event) (e : exn) :
  analyze_page resp url s = (s, evs, Raise e) ->
  worker_resume resp url s = (s, evs, Raise e).
Proof. intros H. unfold worker_resume, bind. now rewrite H. Qed.

Lemma worker_resume_ok (resp : response) (url : str) (s : shared)
  (evs : list event) (divs : list division) (subs : list str) :
  analyze_page resp url s = (s, evs, Ok (divs, subs)) ->
  worker_resume resp url s =
  match Queue.unfinished_tasks (queue s) + length subs with
  | O =>
      (turn_state s divs subs 0,
       evs ++ map PutWriter divs ++ map Put subs ++ [Scanned],
       Raise ValueError)
  | S n =>
      (turn_state s divs subs n,
       evs ++ map PutWriter divs ++ map Put subs ++ [Scanned; TaskDone url],
       Ok tt)
  end.
Proof.
  intros H. unfold worker_resume. unfold bind at 1. rewrite H.
  unfold bind at 1. rewrite for_queue_writer_put.
  unfold bind at 1. rewrite for_queue_put. cbn [queue queue_writer csvfile t_scanned t_saved].
  unfold bind, t_scanned_update, queue_task_done, Queue.task_done, turn_state.
  cbn [queue queue_writer csvfile t_scanned t_saved Queue.unfinished_tasks Queue.items].
  destruct (Queue.unfinished_tasks (queue s) + length subs); cbn;
    rewrite ?app_nil_r; reflexivity.
Qed.

Lemma writer_start_eq (s : shared) :
  writer_start s
  = (Shared (queue s) (queue_writer s) (Some [fieldnames]) (t_scanned s)
       (t_saved s),
     [OpenFile; WriteRow fieldnames], Ok tt).
Proof. reflexivity. Qed.

Lemma dict_to_list_row (d0 d1 d2 : str) :
  dict_to_list [(#"code", d0); (#"name", d1); (#"level", d2)] = [d0; d1; d2].
Proof. reflexivity. Qed.

Lemma writer_resume_eq (d : division) (s : shared) :
  writer_resume d s =
  let file := match csvfile s with
              | Some rs => Some (rs ++ [row_of d])
              | None => None
              end in
  match Queue.unfinished_tasks (queue_writer s) with
  | O =>
      (Shared (queue s) (queue_writer s) file (t_scanned s) (t_saved s),
       [WriteRow (row_of d)], Raise ValueError)
  | S n =>
      (Shared (queue s) (Queue.Build (Queue.items (queue_writer s)) n) file
         (t_scanned s) (t_saved s + 1),
       [WriteRow (row_of d); TaskDoneWriter; Saved], Ok tt)
  end.
Proof.
  destruct d as [[d0 d1] d2].
  unfold writer_resume, writerow. rewrite dict_to_list_row.
  unfold bind, write_row, queue_writer_task_done, Queue.task_done,
    t_saved_update, row_of.
  cbn [queue queue_writer csvfile t_scanned t_saved].
  destruct (Queue.unfinished_tasks (queue_writer s)); reflexivity.
Qed.

End Tasks.

(** ** The claims on one turn of the worker and of the writer *)

Section TurnClaims.

Context {L : Library}.



(** C10.  A body that contains the marker is never parsed: whatever rows
    it has, the analysis of the page gives no division and one link, the
    address of the page itself. *)
Theorem marker_first (html url : str) (s : shared) :
  contains marker html = true ->
  analyze_page (Text html) url s
  = (s, [LogWarning url; Sleep 60], Ok ([], [url])).
Proof. intros Hm. unfold analyze_page. now rewrite Hm. Qed.


(** C9.  The links a page analysis returns are the link targets found in
    the page, each joined to the address of the page by [urljoin]; when
    the request failed or the body has the marker, the one link is the
    address of the page.  So the links are absolute whenever the address
    is and [urljoin] on that address gives absolute addresses. *)
Theorem subpages_absolute (absolute : str -> Prop) (resp : response)
  (url : str) (s s' : shared) (evs : list event) (divs : list division)
  (subs : list str) :
  absolute url ->
  (forall href, absolute (urljoin url href)) ->
  analyze_page resp url s = (s', evs, Ok (divs, subs)) ->
  Forall absolute subs
  /\ forall html,
      resp = Text html ->
      contains marker html = false ->
      subs = map (urljoin url) (raw_links (BeautifulSoup html)).
Proof.
  intros Habs Hjoin Hpage.
  assert (Hraw : forall html,
             resp = Text html -> contains marker html = false ->
             subs = map (urljoin url) (raw_links (BeautifulSoup html))).
  { intros html -> Hm. rewrite analyze_page_text in Hpage by exact Hm.
    inversion Hpage as [[Hs He Hex]]. clear Hpage.
    unfold extract in Hex. unfold raw_links.
    destruct (select_level (BeautifulSoup html) admin_types) as [[t trs]|].
    - destruct (list_eq_dec N.eq_dec t #"province") as [->|Ht].
      + rewrite str_eqb_refl. rewrite extract_rows_province in Hex.
        destruct (forallb _ trs); [|discriminate]. now inversion Hex.
      + rewrite extract_rows_other in Hex by exact Ht.
        apply str_eqb_neq in Ht. rewrite Ht.
        destruct (forallb has_cells trs); [|discriminate]. now inversion Hex.
    - now inversion Hex. }
  split; [|exact Hraw].
  destruct resp as [html|].
  - destruct (contains marker html) eqn:Hm.
    + rewrite analyze_page_marked in Hpage by exact Hm.
      inversion Hpage; subst. now constructor.
    + rewrite (Hraw html eq_refl Hm). apply Forall_forall.
      intros u Hin. apply in_map_iff in Hin. destruct Hin as (h & <- & _).
      apply Hjoin.
  - rewrite analyze_page_error in Hpage. inversion Hpage; subst.
    now constructor.
Qed.

End TurnClaims.

Section MoreTurnClaims.

Context {L : Library}.




End MoreTurnClaims.

(** ** The event loop *)

Section EventLoop.

Context {L : Library}.

Lemma exec_app (net : network) (a b : list action) :
  forall s,
    exec net s (a ++ b)
    = match exec net s a with
      | Some s' => exec net s' b
      | None => None
      end.
Proof.
  induction a as [|x a IH]; intros s; simpl; [reflexivity|].
  destruct (permitted net s x); [|reflexivity].
  destruct (step s x) as [s'|]; [apply IH|reflexivity].
Qed.

(** Induction on the states a run reaches. *)
Lemma reachable_ind (net : network) (url : str) (ntasks : Z)
  (P : system -> Prop) :
  P (run_queue url ntasks) ->
  (forall s a s',
      reachable net url ntasks s -> P s ->
      permitted net s a = true -> step s a = Some s' -> P s') ->
  forall s, reachable net url ntasks s -> P s.
Proof.
  intros Hinit Hstep s [sched Hrun]. revert s Hrun.
  induction sched as [|a sched IH] using rev_ind; intros s Hrun.
  - simpl in Hrun. now inversion Hrun.
  - rewrite exec_app in Hrun.
    destruct (exec net (run_queue url ntasks) sched) as [s0|] eqn:H0;
      [|discriminate].
    simpl in Hrun.
    destruct (permitted net s0 a) eqn:Hp; [|discriminate].
    destruct (step s0 a) as [s1|] eqn:Hs; [|discriminate].
    inversion Hrun; subst s1.
    apply (Hstep s0 a s); try assumption.
    + now exists sched.
    + now apply IH.
Qed.

Lemma reachable_step (net : network) (url : str) (ntasks : Z)
  (s s' : system) (a : action) :
  reachable net url ntasks s -> permitted net s a = true ->
  step s a = Some s' -> reachable net url ntasks s'.
Proof.
  intros [sched Hrun] Hp Hs. exists (sched ++ [a]).
  rewrite exec_app, Hrun. simpl. now rewrite Hp, Hs.
Qed.

(** The events of [analyze_page] are log lines and sleeps. *)
Lemma analyze_page_quiet (resp : response) (url : str) (s : shared) :
  exists evs r,
    analyze_page resp url s = (s, evs, r) /\ forallb quiet evs = true.
Proof.
  destruct resp as [html|]; [|now eexists _, _].
  destruct (contains marker html) eqn:Hm.
  - rewrite analyze_page_marked by exact Hm. now eexists _, _.
  - rewrite analyze_page_text by exact Hm. now eexists _, _.
Qed.

(** What a turn of the worker comes to. *)
Lemma worker_resume_cases (resp : response) (url : str) (s : shared) :
  exists pre,
    forallb quiet pre = true
    /\ ((exists e,
            analyze_page resp url s = (s, pre, Raise e)
            /\ worker_resume resp url s = (s, pre, Raise e))
        \/ (exists divs subs,
               analyze_page resp url s = (s, pre, Ok (divs, subs))
               /\ worker_resume resp url s
                  = match Queue.unfinished_tasks (queue s) + length subs with
                    | O =>
                        (turn_state s divs subs 0,
                         pre ++ map PutWriter divs ++ map Put subs ++ [Scanned],
                         Raise ValueError)
                    | S n =>
                        (turn_state s divs subs n,
                         pre ++ map PutWriter divs ++ map Put subs
                           ++ [Scanned; TaskDone url],
                         Ok tt)
                    end)).
Proof.
  destruct (analyze_page_quiet resp url s) as (pre & r & Ha & Hq).
  exists pre. split; [exact Hq|].
  destruct r as [[divs subs]|e].
  - right. exists divs, subs. split; [exact Ha|].
    now apply worker_resume_ok.
  - left. exists e. split; [exact Ha|]. now apply worker_resume_raise.
Qed.

(** The readings of a trace, piece by piece. *)
Lemma quiet_silent (pre : list event) :
  forallb quiet pre = true ->
  dequeued pre = [] /\ enqueued pre = [] /\ processed pre = []
  /\ emitted pre = [] /\ consumed pre = [].
Proof.
  induction pre as [|e pre IH]; simpl; [tauto|].
  intros H. apply andb_true_iff in H. destruct H as [He Hpre].
  destruct (IH Hpre) as (H1 & H2 & H3 & H4 & H5).
  destruct e; try discriminate; simpl; tauto.
Qed.

Lemma emitted_put_writer (divs : list division) :
  emitted (map PutWriter divs) = divs
  /\ dequeued (map PutWriter divs) = [] /\ enqueued (map PutWriter divs) = []
  /\ processed (map PutWriter divs) = [] /\ consumed (map PutWriter divs) = [].
Proof.
  induction divs as [|d divs (H1 & H2 & H3 & H4 & H5)]; simpl; [tauto|].
  repeat split; congruence.
Qed.

Lemma enqueued_put (subs : list str) :
  enqueued (map Put subs) = subs
  /\ dequeued (map Put subs) = [] /\ emitted (map Put subs) = []
  /\ processed (map Put subs) = [] /\ consumed (map Put subs) = [].
Proof.
  induction subs as [|u subs (H1 & H2 & H3 & H4 & H5)]; simpl; [tauto|].
  repeat split; congruence.
Qed.

(** The readings of the trace of a turn that ended well, and of one that
    ended with [ValueError]. *)
Lemma turn_trace (pre : list event) (divs : list division) (subs : list str)
  (tail : list event) :
  forallb quiet pre = true ->
  let evs := pre ++ map PutWriter divs ++ map Put subs ++ tail in
  dequeued evs = dequeued tail
  /\ enqueued evs = subs ++ enqueued tail
  /\ processed evs = processed tail
  /\ emitted evs = divs ++ emitted tail
  /\ consumed evs = consumed tail.
Proof.
  intros Hq evs. unfold evs.
  destruct (quiet_silent _ Hq) as (Q1 & Q2 & Q3 & Q4 & Q5).
  destruct (emitted_put_writer divs) as (W1 & W2 & W3 & W4 & W5).
  destruct (enqueued_put subs) as (P1 & P2 & P3 & P4 & P5).
  unfold dequeued, enqueued, processed, emitted, consumed in *.
  rewrite !flat_map_app.
  rewrite Q1, Q2, Q3, Q4, Q5, W1, W2, W3, W4, W5, P1, P2, P3, P4, P5.
  rewrite ?app_nil_r. repeat split; reflexivity.
Qed.

End EventLoop.

(** ** The writer never loses a division *)

Section Sink.

Context {L : Library}.

Lemma emitted_app (a b : list event) :
  emitted (a ++ b) = emitted a ++ emitted b.
Proof. apply flat_map_app. Qed.

Lemma consumed_app (a b : list event) :
  consumed (a ++ b) = consumed a ++ consumed b.
Proof. apply flat_map_app. Qed.

(** What holds of the queue of the writer and of the file in every state
    of a run. *)
Lemma sink_invariant (net : network) (url : str) (ntasks : Z) (s : system) :
  reachable net url ntasks s ->
  Queue.unfinished_tasks (queue_writer (sh s))
  = length (Queue.items (queue_writer (sh s)))
  /\ emitted (trace s) = consumed (trace s) ++ Queue.items (queue_writer (sh s))
  /\ ((sink s = Created /\ csvfile (sh s) = None /\ consumed (trace s) = [])
      \/ (sink s = Waiting
          /\ csvfile (sh s)
             = Some (fieldnames :: map row_of (consumed (trace s))))).
Proof.
  revert s. apply reachable_ind.
  - simpl. repeat split. left. repeat split.
  - intros s a s' _ IH _ Hstep.
    destruct IH as (Hunf & Hem & Hfile).
    destruct a as [i|i resp| |]; unfold step in Hstep.
    + (* a worker takes a page *)
      destruct (nth_error (workers s) i) as [[|u|e]|]; try discriminate.
      destruct (Queue.get_nowait (queue (sh s))) as [[u q]|]; [|discriminate].
      inversion Hstep; subst s'; clear Hstep.
      cbn [sh trace sink queue_writer csvfile].
      rewrite emitted_app, consumed_app. cbn [emitted consumed flat_map].
      rewrite !app_nil_r. tauto.
    + (* a worker ends its turn *)
      destruct (nth_error (workers s) i) as [[|u|e]|]; try discriminate.
      destruct (worker_resume_cases resp u (sh s))
        as (pre & Hq & [(e & _ & Hw)|(divs & subs & _ & Hw)]);
        rewrite Hw in Hstep.
      * inversion Hstep; subst s'; clear Hstep. cbn [sh trace sink].
        destruct (quiet_silent _ Hq) as (_ & _ & _ & Q4 & Q5).
        rewrite emitted_app, consumed_app, Q4, Q5, !app_nil_r.
        tauto.
      * assert (Hshape : exists n w tail,
                   s' = System (turn_state (sh s) divs subs n)
                          (update i w (workers s)) (sink s)
                          (trace s ++ pre ++ map PutWriter divs
                             ++ map Put subs ++ tail)
                   /\ emitted tail = [] /\ consumed tail = []).
        { destruct (Queue.unfinished_tasks (queue (sh s)) + length subs) as [|n];
            inversion Hstep; subst s'.
          - exists 0, (Failed ValueError), [Scanned]. now repeat split.
          - exists n, Idle, [Scanned; TaskDone u]. now repeat split. }
        destruct Hshape as (n & w & tail & -> & T1 & T2). clear Hstep Hw.
        cbn [sh trace sink turn_state queue_writer csvfile
               Queue.items Queue.unfinished_tasks].
        destruct (turn_trace pre divs subs tail Hq) as (_ & _ & _ & E4 & E5).
        cbv zeta in E4, E5.
        rewrite emitted_app, consumed_app, E4, E5, T1, T2, Hem.
        rewrite !app_nil_r, length_app, <- app_assoc.
        repeat split; [lia|tauto].
    + (* the writer opens the file *)
      destruct (sink s) eqn:Hsink; try discriminate.
      rewrite writer_start_eq in Hstep.
      inversion Hstep; subst s'; clear Hstep.
      cbn [sh trace sink queue_writer csvfile after_writer].
      rewrite emitted_app, consumed_app. cbn [emitted consumed flat_map].
      rewrite !app_nil_r.
      destruct Hfile as [(_ & _ & Hc)|(Hw & _)]; [|discriminate].
      repeat split; try assumption. right. now rewrite Hc.
    + (* the writer writes a row *)
      destruct (sink s) eqn:Hsink; try discriminate.
      destruct (Queue.get_nowait (queue_writer (sh s))) as [[d q]|] eqn:Hget;
        [|discriminate].
      unfold Queue.get_nowait in Hget.
      destruct (Queue.items (queue_writer (sh s))) as [|d' rest] eqn:Hitems;
        [discriminate|].
      inversion Hget; subst d' q; clear Hget.
      rewrite writer_resume_eq in Hstep. cbv zeta in Hstep.
      cbn [queue queue_writer csvfile t_scanned t_saved
             Queue.unfinished_tasks Queue.items] in Hstep.
      rewrite Hunf in Hstep. cbn [length] in Hstep.
      inversion Hstep; subst s'; clear Hstep.
      cbn [sh trace sink queue_writer csvfile after_writer
             Queue.items Queue.unfinished_tasks].
      destruct Hfile as [(Hw & _)|(_ & Hf)]; [discriminate|].
      rewrite Hf, emitted_app, consumed_app. cbn [emitted consumed flat_map].
      rewrite !app_nil_r, map_app, Hem, <- app_assoc. simpl.
      repeat split. right. split; reflexivity.
Qed.

(** C7.  The file of the writer starts with the row [code,name,level];
    after it comes one row for each division the writer took from its
    queue, in the order it took them, with the code, the name and the
    level in that order.  The divisions the workers put on the queue are
    those the writer took followed by those still on the queue: when the
    join of that queue goes through, the file has as many rows after the
    first as the workers put divisions. *)
Theorem writer_rows (net : network) (url : str) (ntasks : Z) (s : system) :
  reachable net url ntasks s ->
  fieldnames = [#"code"; #"name"; #"level"]
  /\ (forall file,
        csvfile (sh s) = Some file ->
        file = fieldnames :: map row_of (consumed (trace s)))
  /\ (csvfile (sh s) = None -> consumed (trace s) = [])
  /\ (forall code name level,
        row_of (code, name, level) = [strip code; strip name; level])
  /\ emitted (trace s) = consumed (trace s) ++ Queue.items (queue_writer (sh s))
  /\ (queue_writer_joined s = true ->
      consumed (trace s) = emitted (trace s)
      /\ length (map row_of (consumed (trace s))) = length (emitted (trace s))).
Proof.
  intros Hreach.
  destruct (sink_invariant net url ntasks s Hreach) as (Hunf & Hem & Hfile).
  split; [reflexivity|]. split; [|split; [|split; [|split]]].
  - intros file Hf.
    destruct Hfile as [(_ & Hnone & _)|(_ & Hsome)]; congruence.
  - intros Hnone.
    destruct Hfile as [(_ & _ & Hc)|(_ & Hsome)]; congruence.
  - reflexivity.
  - exact Hem.
  - unfold queue_writer_joined, Queue.joined. intros Hj.
    apply Nat.eqb_eq in Hj. rewrite Hunf in Hj.
    apply length_zero_iff_nil in Hj. rewrite Hj, app_nil_r in Hem.
    split; [now symmetry|]. now rewrite length_map, Hem.
Qed.

(** C6, as amended.  The name of a division that the extraction returns
    is the text of a cell as it stands in the page.  A division is not
    changed after that: the writer takes from its queue the divisions the
    workers put there, in that order.  The writer strips the code and the
    name when it writes the row of a division, so the code and the name
    in the file have no white space at either end. *)
Theorem name_stripped_by_writer (html url : str) (d : division) (s : shared)
  (file : list (list str)) :
  csvfile s = Some file ->
  Queue.unfinished_tasks (queue_writer s) <> 0 ->
  (forall t trs divs subs,
      select_level (BeautifulSoup html) admin_types = Some (t, trs) ->
      extract (BeautifulSoup html) url = Ok (divs, subs) ->
      Forall
        (fun d' => exists tr td,
             In tr trs /\ In td (cells tr) /\ name_of d' = text td)
        divs)
  /\ (forall net ntasks sys,
        reachable net url ntasks sys ->
        emitted (trace sys)
        = consumed (trace sys) ++ Queue.items (queue_writer (sh sys)))
  /\ exists s',
      writer_resume d s
      = (s', [WriteRow (row_of d); TaskDoneWriter; Saved], Ok tt)
      /\ csvfile s'
         = Some (file ++ [[strip (code_of d); strip (name_of d); level_of d]])
      /\ trimmed (strip (code_of d)) = true
      /\ trimmed (strip (name_of d)) = true.
Proof.
  intros Hfile Hunf. split; [|split].
  2:{ intros net ntasks sys Hreach.
      now destruct (sink_invariant net url ntasks sys Hreach) as (_ & Hem & _). }
  - intros t trs divs subs Hsel Hok. unfold extract in Hok. rewrite Hsel in Hok.
    destruct (list_eq_dec N.eq_dec t #"province") as [->|Ht].
    + rewrite extract_rows_province in Hok.
      destruct (forallb _ trs); [|discriminate]. inversion Hok; subst.
      apply Forall_forall. intros d' Hin. apply in_map_iff in Hin.
      destruct Hin as (td & <- & Hin). apply in_flat_map in Hin.
      destruct Hin as (tr & Htr & Htd). now exists tr, td.
    + rewrite extract_rows_other in Hok by exact Ht.
      destruct (forallb has_cells trs) eqn:Hc; [|discriminate].
      inversion Hok; subst.
      apply Forall_forall. intros d' Hin. apply in_map_iff in Hin.
      destruct Hin as (tr & <- & Hin).
      rewrite forallb_forall in Hc. specialize (Hc tr Hin).
      unfold has_cells in Hc. unfold other_division, name_of. cbn [fst snd].
      destruct (cells tr) as [|td0 tds] eqn:Hcells; [discriminate|].
      exists tr, (last (td0 :: tds) (NavigableString [])).
      repeat split; [assumption|].
      rewrite Hcells. apply last_cons_in.
  - rewrite writer_resume_eq. cbv zeta. rewrite Hfile.
    destruct (Queue.unfinished_tasks (queue_writer s)); [contradiction|].
    eexists. split; [reflexivity|]. cbn [csvfile].
    destruct d as [[code name] level]. cbn [row_of code_of name_of level_of fst snd].
    repeat split; apply strip_trimmed.
Qed.

End Sink.

(** ** The queue of pages counts the pages that are not done *)

Section Frontier.

Context {L : Library}.

Lemma update_split {A} (l : list A) (i : nat) (x y : A) :
  nth_error l i = Some y ->
  exists l1 l2, l = l1 ++ y :: l2 /\ update i x l = l1 ++ x :: l2.
Proof.
  revert i. induction l as [|z l IH]; intros [|i]; simpl; try discriminate.
  - intros E. inversion E; subst. now exists [], l.
  - intros E. destruct (IH i E) as (l1 & l2 & -> & ->).
    now exists (z :: l1), l2.
Qed.

Lemma in_flight_app (a b : list task) :
  in_flight (a ++ b) = in_flight a ++ in_flight b.
Proof. apply flat_map_app. Qed.

Lemma failed_app (a b : list task) : failed (a ++ b) = failed a ++ failed b.
Proof. apply flat_map_app. Qed.

Lemma dequeued_app (a b : list event) :
  dequeued (a ++ b) = dequeued a ++ dequeued b.
Proof. apply flat_map_app. Qed.

Lemma enqueued_app (a b : list event) :
  enqueued (a ++ b) = enqueued a ++ enqueued b.
Proof. apply flat_map_app. Qed.

Lemma processed_app (a b : list event) :
  processed (a ++ b) = processed a ++ processed b.
Proof. apply flat_map_app. Qed.

Lemma idle_pool (n : nat) :
  in_flight (repeat Idle n) = [] /\ failed (repeat Idle n) = [].
Proof. induction n as [|n IH]; [split; reflexivity|exact IH]. Qed.

(** A step of the writer leaves the queue of pages and the workers as
    they are, and its events are none of the workers'. *)
Lemma writer_resume_frontier (d : division) (s : shared) :
  exists s' evs r,
    writer_resume d s = (s', evs, r)
    /\ queue s' = queue s
    /\ dequeued evs = [] /\ enqueued evs = [] /\ processed evs = [].
Proof.
  rewrite writer_resume_eq. cbv zeta.
  destruct (Queue.unfinished_tasks (queue_writer s)); eexists _, _, _;
    repeat split.
Qed.

(** What holds of the queue of pages in every state of a run, whatever
    the network does. *)
Lemma frontier_invariant (net : network) (url : str) (ntasks : Z)
  (s : system) :
  reachable net url ntasks s ->
  Queue.unfinished_tasks (queue (sh s))
  = length (Queue.items (queue (sh s))) + length (in_flight (workers s))
    + length (failed (workers s))
  /\ enqueued (trace s) = dequeued (trace s) ++ Queue.items (queue (sh s))
  /\ length (dequeued (trace s))
     = length (processed (trace s)) + length (in_flight (workers s))
       + length (failed (workers s)).
Proof.
  revert s. apply reachable_ind.
  - unfold run_queue. cbn [sh trace workers].
    destruct (idle_pool (Z.to_nat ntasks)) as [-> ->]. repeat split.
  - intros s a s' _ IH _ Hstep.
    destruct IH as (Hunf & Hq & Hlen).
    destruct a as [i|i resp| |]; unfold step in Hstep.
    + (* a worker takes a page *)
      destruct (nth_error (workers s) i) as [[|u|e]|] eqn:Hi; try discriminate.
      destruct (Queue.get_nowait (queue (sh s))) as [[u q]|] eqn:Hget;
        [|discriminate].
      unfold Queue.get_nowait in Hget.
      destruct (Queue.items (queue (sh s))) as [|u' rest] eqn:Hitems;
        [discriminate|].
      inversion Hget; subst u' q; clear Hget.
      inversion Hstep; subst s'; clear Hstep.
      destruct (update_split _ _ (Busy u) _ Hi) as (l1 & l2 & Hws & ->).
      rewrite Hws in *.
      cbn [sh trace workers queue Queue.items Queue.unfinished_tasks].
      rewrite dequeued_app, enqueued_app, processed_app.
      rewrite in_flight_app, failed_app in *.
      cbn [in_flight failed dequeued enqueued processed flat_map app] in *.
      rewrite !app_nil_r, !length_app in *. cbn [length] in *.
      rewrite Hq, <- app_assoc. split; [lia|split; [reflexivity|lia]].
    + (* a worker ends its turn *)
      destruct (nth_error (workers s) i) as [[|u|e]|] eqn:Hi; try discriminate.
      destruct (worker_resume_cases resp u (sh s))
        as (pre & Hpre & [(e & _ & Hw)|(divs & subs & _ & Hw)]);
        rewrite Hw in Hstep.
      * inversion Hstep; subst s'; clear Hstep.
        destruct (update_split _ _ (Failed e) _ Hi) as (l1 & l2 & Hws & ->).
        rewrite Hws in *.
        cbn [sh trace workers after].
        destruct (quiet_silent _ Hpre) as (Q1 & Q2 & Q3 & _ & _).
        rewrite dequeued_app, enqueued_app, processed_app, Q1, Q2, Q3.
        rewrite in_flight_app, failed_app in *.
        cbn [in_flight failed flat_map app] in *.
        rewrite !app_nil_r, !length_app in *. cbn [length] in *.
        split; [lia|split; [assumption|lia]].
      * destruct (update_split _ _ Idle _ Hi) as (l1 & l2 & Hws & Hup).
        rewrite Hws in *.
        rewrite in_flight_app, failed_app, !length_app in *.
        cbn [in_flight failed flat_map app length] in *.
        destruct (Queue.unfinished_tasks (queue (sh s)) + length subs) as [|n]
          eqn:Hn; [lia|].
        inversion Hstep; subst s'; clear Hstep.
        cbn [sh trace workers after turn_state queue
               Queue.items Queue.unfinished_tasks].
        rewrite Hup.
        destruct (turn_trace pre divs subs [Scanned; TaskDone u] Hpre)
          as (E1 & E2 & E3 & _ & _).
        cbv zeta in E1, E2, E3.
        rewrite dequeued_app, enqueued_app, processed_app, E1, E2, E3.
        rewrite in_flight_app, failed_app.
        cbn [in_flight failed dequeued enqueued processed flat_map app].
        rewrite !app_nil_r, !length_app. cbn [length].
        rewrite Hq, <- app_assoc. split; [lia|split; [reflexivity|lia]].
    + (* the writer opens the file *)
      destruct (sink s); try discriminate.
      rewrite writer_start_eq in Hstep.
      inversion Hstep; subst s'; clear Hstep.
      cbn [sh trace workers queue].
      rewrite dequeued_app, enqueued_app, processed_app.
      cbn [dequeued enqueued processed flat_map app].
      rewrite !app_nil_r. tauto.
    + (* the writer writes a row *)
      destruct (sink s); try discriminate.
      destruct (Queue.get_nowait (queue_writer (sh s))) as [[d q]|];
        [|discriminate].
      match type of Hstep with
      | context [writer_resume d ?x] =>
          destruct (writer_resume_frontier d x)
            as (s1 & evs & r & Hw & Hsame & D1 & D2 & D3)
      end.
      rewrite Hw in Hstep. inversion Hstep; subst s'; clear Hstep.
      cbn [sh trace workers]. rewrite Hsame. cbn [queue].
      rewrite dequeued_app, enqueued_app, processed_app.
      cbn [dequeued enqueued processed flat_map app].
      fold (dequeued evs) (enqueued evs) (processed evs).
      rewrite D1, D2, D3, !app_nil_r. tauto.
Qed.

End Frontier.

(** ** A run on a site that is a finite tree *)

Section Tree.

Import Instances.Lists.

Context {L : Library}.

Lemma response_eqb_eq (a b : response) : response_eqb a b = true -> a = b.
Proof.
  destruct a as [x|], b as [y|]; simpl; try discriminate; [|reflexivity].
  intros H. apply str_eqb_eq in H. now subst.
Qed.

Lemma list_eqb_eq (a b : list str) : list_eqb a b = true -> a = b.
Proof.
  unfold list_eqb. now destruct (list_eq_dec (list_eq_dec N.eq_dec) a b).
Qed.

Lemma site_node (web : str -> response) (url : str) (children : list tree) :
  site web (Node url children) = true ->
  exists html divs,
    web url = Text html
    /\ contains marker html = false
    /\ extract (BeautifulSoup html) url = Ok (divs, map root children)
    /\ Forall (fun t => site web t = true) children.
Proof.
  cbn [site]. destruct (web url) as [html|]; [|discriminate].
  intros H. apply andb_true_iff in H. destruct H as [Hm H].
  destruct (extract (BeautifulSoup html) url) as [[divs subs]|] eqn:Hex;
    [|discriminate].
  apply andb_true_iff in H. destruct H as [Hsubs Hch].
  apply list_eqb_eq in Hsubs. subst subs.
  exists html, divs.
  split; [reflexivity|]. split; [now apply negb_true_iff|].
  split; [exact Hex|].
  apply Forall_forall. intros t Ht.
  now apply (proj1 (forallb_forall _ _) Hch).
Qed.

Lemma urls_length (t : tree) : 1 <= length (urls t).
Proof. destruct t; simpl; lia. Qed.

Lemma forest_urls_nil (F : list tree) : flat_map urls F = [] -> F = [].
Proof.
  destruct F as [|t F]; [reflexivity|]. simpl. intros H.
  pose proof (urls_length t) as Ht.
  apply (f_equal (@length str)) in H. rewrite length_app in H. simpl in H. lia.
Qed.

(** What holds in every state of a run on a site that is the tree [T],
    with a network that serves it: the pages on the queue and in the
    hands of the workers are the roots of a forest [F] of subtrees of the
    site, and the pages of the site are those that are done and those of
    the forest. *)
Lemma tree_invariant (web : str -> response) (T : tree) (ntasks : Z)
  (s : system) :
  site web T = true ->
  reachable (served web) (root T) ntasks s ->
  exists F,
    Forall (fun t => site web t = true) F
    /\ Permutation (map root F)
         (Queue.items (queue (sh s)) ++ in_flight (workers s))
    /\ Permutation (urls T) (processed (trace s) ++ flat_map urls F)
    /\ failed (workers s) = []
    /\ Permutation (dequeued (trace s))
         (processed (trace s) ++ in_flight (workers s)).
Proof.
  intros Hsite. revert s. apply reachable_ind.
  - exists [T]. unfold run_queue. cbn [sh trace workers queue Queue.items].
    destruct (idle_pool (Z.to_nat ntasks)) as [-> ->].
    cbn. rewrite app_nil_r. repeat split; auto.
  - intros s a s' Hreach (F & HF & Hroots & Hurls & Hfail & Hdeq) Hperm Hstep.
    pose proof (frontier_invariant _ _ _ _ Hreach) as (Hunf & _ & _).
    destruct a as [i|i resp| |]; unfold step in Hstep.
    + (* a worker takes a page *)
      destruct (nth_error (workers s) i) as [[|u|e]|] eqn:Hi; try discriminate.
      destruct (Queue.get_nowait (queue (sh s))) as [[u q]|] eqn:Hget;
        [|discriminate].
      unfold Queue.get_nowait in Hget.
      destruct (Queue.items (queue (sh s))) as [|u' rest] eqn:Hitems;
        [discriminate|].
      inversion Hget; subst u' q; clear Hget.
      inversion Hstep; subst s'; clear Hstep.
      destruct (update_split _ _ (Busy u) _ Hi) as (l1 & l2 & Hws & ->).
      rewrite Hws in *. exists F.
      cbn [sh trace workers queue Queue.items].
      rewrite dequeued_app, processed_app.
      rewrite in_flight_app, failed_app in *.
      change (in_flight (Idle :: l2)) with (in_flight l2) in *.
      change (in_flight (Busy u :: l2)) with ([u] ++ in_flight l2).
      change (failed (Busy u :: l2)) with (failed l2).
      change (failed (Idle :: l2)) with (failed l2) in Hfail.
      change (u :: rest) with ([u] ++ rest) in Hroots.
      cbn [dequeued processed flat_map]. rewrite !app_nil_r.
      repeat split; try assumption.
      * rewrite Hroots. aac_reflexivity.
      * rewrite Hdeq. aac_reflexivity.
    + (* a worker ends its turn *)
      destruct (nth_error (workers s) i) as [[|u|e]|] eqn:Hi; try discriminate.
      cbn [permitted] in Hperm. rewrite Hi in Hperm.
      apply response_eqb_eq in Hperm. subst resp.
      destruct (update_split _ _ Idle _ Hi) as (l1 & l2 & Hws & Hup).
      rewrite Hws in *.
      rewrite in_flight_app, failed_app, !length_app in *.
      change (in_flight (Busy u :: l2)) with ([u] ++ in_flight l2) in *.
      change (failed (Busy u :: l2)) with (failed l2) in *.
      (* the tree of the page *)
      assert (Hin : In u (map root F)).
      { apply (Permutation_in u (Permutation_sym Hroots)).
        apply in_or_app. right. apply in_or_app. right. now left. }
      apply in_map_iff in Hin. destruct Hin as (t & Ht & Hin).
      apply in_split in Hin. destruct Hin as (F1 & F2 & ->).
      destruct t as [u' children]. cbn [root] in Ht. subst u'.
      rewrite Forall_app in HF. destruct HF as [HF1 HF2].
      inversion HF2 as [|t' F' Hnode HF2']; subst t' F'; clear HF2.
      destruct (site_node _ _ _ Hnode) as (html & divs & Hweb & Hm & Hex & Hch).
      (* the turn *)
      rewrite Hweb in Hstep.
      rewrite (worker_resume_ok (Text html) u (sh s) [] divs (map root children))
        in Hstep
        by (rewrite analyze_page_text by exact Hm; now rewrite Hex).
      cbn [length app] in Hunf.
      destruct (Queue.unfinished_tasks (queue (sh s))
                + length (map root children)) as [|n] eqn:Hn; [lia|].
      inversion Hstep; subst s'; clear Hstep.
      exists (F1 ++ F2 ++ children).
      cbn [sh trace workers after turn_state queue Queue.items].
      rewrite Hup, dequeued_app, processed_app, in_flight_app, failed_app.
      change (in_flight (Idle :: l2)) with (in_flight l2).
      change (failed (Idle :: l2)) with (failed l2).
      destruct (turn_trace [] divs (map root children) [Scanned; TaskDone u]
                  eq_refl) as (E1 & _ & E3 & _ & _).
      cbv zeta in E1, E3. cbn [app] in E1, E3. cbn [app]. rewrite E1, E3.
      cbn [dequeued processed flat_map app]. rewrite !app_nil_r.
      rewrite map_app in Hroots. cbn [map root] in Hroots.
      change (u :: map root F2) with ([u] ++ map root F2) in Hroots.
      rewrite flat_map_app in Hurls. cbn [flat_map urls] in Hurls.
      change (u :: flat_map urls children) with ([u] ++ flat_map urls children)
        in Hurls.
      repeat split.
      * rewrite !Forall_app. repeat split; assumption.
      * rewrite !map_app.
        apply (Permutation_app_inv_l [u]).
        transitivity (map root F1 ++ [u] ++ map root F2 ++ map root children);
          [aac_reflexivity|].
        rewrite app_assoc, app_assoc, <- (app_assoc (map root F1)).
        rewrite Hroots. aac_reflexivity.
      * rewrite Hurls, !flat_map_app. aac_reflexivity.
      * assumption.
      * rewrite Hdeq. aac_reflexivity.
    + (* the writer opens the file *)
      destruct (sink s); try discriminate.
      rewrite writer_start_eq in Hstep.
      inversion Hstep; subst s'; clear Hstep. exists F.
      cbn [sh trace workers queue].
      rewrite dequeued_app, processed_app.
      cbn [dequeued processed flat_map app]. rewrite !app_nil_r. tauto.
    + (* the writer writes a row *)
      destruct (sink s); try discriminate.
      destruct (Queue.get_nowait (queue_writer (sh s))) as [[d q]|];
        [|discriminate].
      match type of Hstep with
      | context [writer_resume d ?x] =>
          destruct (writer_resume_frontier d x)
            as (s1 & evs & r & Hw & Hsame & D1 & D2 & D3)
      end.
      rewrite Hw in Hstep. inversion Hstep; subst s'; clear Hstep. exists F.
      cbn [sh trace workers]. rewrite Hsame. cbn [queue].
      rewrite dequeued_app, processed_app.
      cbn [dequeued processed flat_map app].
      fold (dequeued evs) (processed evs).
      rewrite D1, D3, !app_nil_r. tauto.
Qed.

End Tree.

(** ** The join is reached *)

Section Progress.

Context {L : Library}.

Lemma response_eqb_refl (a : response) : response_eqb a a = true.
Proof. destruct a; simpl; [apply str_eqb_refl|reflexivity]. Qed.

Lemma update_length {A} (i : nat) (x : A) (l : list A) :
  length (update i x l) = length l.
Proof.
  revert i. induction l as [|y l IH]; intros [|i]; simpl; try reflexivity.
  now rewrite IH.
Qed.

(** There are as many worker tasks as [run_queue] created. *)
Lemma workers_length (net : network) (url : str) (ntasks : Z) (s : system) :
  reachable net url ntasks s -> length (workers s) = Z.to_nat ntasks.
Proof.
  revert s. apply reachable_ind.
  - apply repeat_length.
  - intros s a s' _ IH _ Hstep. destruct a as [i|i resp| |]; unfold step in Hstep.
    + destruct (nth_error (workers s) i) as [[|u|e]|]; try discriminate.
      destruct (Queue.get_nowait (queue (sh s))) as [[u q]|]; [|discriminate].
      inversion Hstep; subst s'. cbn [workers]. now rewrite update_length.
    + destruct (nth_error (workers s) i) as [[|u|e]|]; try discriminate.
      destruct (worker_resume resp u (sh s)) as [[sh' evs] r].
      inversion Hstep; subst s'. cbn [workers]. now rewrite update_length.
    + destruct (sink s); try discriminate.
      destruct (writer_start (sh s)) as [[sh' evs] r].
      now inversion Hstep; subst s'.
    + destruct (sink s); try discriminate.
      destruct (Queue.get_nowait (queue_writer (sh s))) as [[d q]|];
        [|discriminate].
      destruct (writer_resume d _) as [[sh' evs] r].
      now inversion Hstep; subst s'.
Qed.

(** A worker that holds a page, when some worker does. *)
Lemma busy_worker (ws : list task) :
  in_flight ws <> [] -> exists i u, nth_error ws i = Some (Busy u).
Proof.
  induction ws as [|w ws IH]; [now intros []|].
  destruct w as [|u|e].
  - intros H. destruct (IH H) as (i & u & Hi). now exists (S i), u.
  - intros _. now exists 0, u.
  - intros H. destruct (IH H) as (i & u & Hi). now exists (S i), u.
Qed.

(** When no worker holds a page and none has failed, the first is idle. *)
Lemma idle_worker (ws : list task) :
  in_flight ws = [] -> failed ws = [] -> 0 < length ws ->
  nth_error ws 0 = Some Idle.
Proof.
  destruct ws as [|[|u|e] ws]; simpl; try discriminate; [lia|reflexivity].
Qed.

Lemma forest_urls_length (F : list tree) :
  length F <= length (flat_map urls F).
Proof.
  induction F as [|t F IH]; simpl; [lia|].
  rewrite length_app. pose proof (urls_length t). lia.
Qed.

(** The counts of a run on a site that is the tree [T]. *)
Lemma tree_counts (web : str -> response) (T : tree) (ntasks : Z)
  (s : system) :
  site web T = true ->
  reachable (served web) (root T) ntasks s ->
  failed (workers s) = []
  /\ Queue.unfinished_tasks (queue (sh s))
     = length (Queue.items (queue (sh s))) + length (in_flight (workers s))
  /\ length (processed (trace s)) + length (Queue.items (queue (sh s)))
     + length (in_flight (workers s)) <= length (urls T)
  /\ length (dequeued (trace s))
     = length (processed (trace s)) + length (in_flight (workers s)).
Proof.
  intros Hsite Hreach.
  destruct (frontier_invariant _ _ _ _ Hreach) as (Hunf & _ & Hlen).
  destruct (tree_invariant web T ntasks s Hsite Hreach)
    as (F & _ & Hroots & Hurls & Hfail & _).
  rewrite Hfail in Hunf, Hlen. cbn [length] in Hunf, Hlen.
  apply Permutation_length in Hroots, Hurls.
  rewrite length_map, length_app in Hroots. rewrite length_app in Hurls.
  pose proof (forest_urls_length F).
  repeat split; [assumption|lia|lia|lia].
Qed.

(** From every state of such a run, with one worker at least, the event
    loop has a way to the state where [queue.join()] goes through. *)
Lemma join_reached (web : str -> response) (T : tree) (ntasks : Z) :
  site web T = true ->
  (0 < ntasks)%Z ->
  forall n s,
    reachable (served web) (root T) ntasks s ->
    2 * (length (urls T) - length (processed (trace s)))
    - length (in_flight (workers s)) <= n ->
    exists sched s',
      exec (served web) s sched = Some s' /\ queue_joined s' = true.
Proof.
  intros Hsite Hpos.
  assert (Hnext : forall s,
             reachable (served web) (root T) ntasks s ->
             queue_joined s = true
             \/ exists a s',
                 permitted (served web) s a = true
                 /\ step s a = Some s'
                 /\ 2 * (length (urls T) - length (processed (trace s')))
                    - length (in_flight (workers s'))
                    < 2 * (length (urls T) - length (processed (trace s)))
                      - length (in_flight (workers s))).
  { intros s Hreach.
    destruct (tree_counts web T ntasks s Hsite Hreach)
      as (Hfail & Hunf & Hle & Hdeq).
    destruct (in_flight (workers s)) as [|u0 rest] eqn:Hif.
    - destruct (Queue.items (queue (sh s))) as [|u items] eqn:Hitems.
      + left. unfold queue_joined, Queue.joined. rewrite Hunf. reflexivity.
      + right.
        assert (Hidle : nth_error (workers s) 0 = Some Idle).
        { apply idle_worker; try assumption.
          rewrite (workers_length _ _ _ _ Hreach). lia. }
        eexists (Dequeue 0), _. split; [reflexivity|]. split.
        { unfold step, Queue.get_nowait. rewrite Hidle, Hitems. reflexivity. }
        cbn [trace workers]. rewrite processed_app.
        cbn [processed flat_map]. rewrite app_nil_r.
        destruct (update_split _ _ (Busy u) _ Hidle) as (l1 & l2 & Hws & ->).
        rewrite Hws, in_flight_app in Hif.
        rewrite in_flight_app.
        change (in_flight (Idle :: l2)) with (in_flight l2) in Hif.
        change (in_flight (Busy u :: l2)) with ([u] ++ in_flight l2).
        rewrite !length_app. cbn [length].
        apply (f_equal (@length str)) in Hif. rewrite length_app in Hif.
        cbn [length] in *. lia.
    - right.
      destruct (busy_worker (workers s)) as (i & u & Hi);
        [rewrite Hif; discriminate|].
      assert (Hperm : permitted (served web) s (Respond i (web u)) = true).
      { cbn [permitted]. rewrite Hi. apply response_eqb_refl. }
      destruct (step s (Respond i (web u))) as [s'|] eqn:Hstep.
      2:{ unfold step in Hstep. rewrite Hi in Hstep.
          destruct (worker_resume (web u) u (sh s)) as [[sh' evs] r].
          discriminate. }
      exists (Respond i (web u)), s'.
      split; [exact Hperm|]. split; [exact Hstep|].
      pose proof (reachable_step _ _ _ _ _ _ Hreach Hperm Hstep) as Hreach'.
      destruct (tree_counts web T ntasks s' Hsite Hreach')
        as (Hfail' & _ & Hle' & Hdeq').
      (* the step takes no page from the queue and frees the worker *)
      unfold step in Hstep. rewrite Hi in Hstep.
      destruct (worker_resume_cases (web u) u (sh s))
        as (pre & Hq & [(e & _ & Hw)|(divs & subs & _ & Hw)]);
        rewrite Hw in Hstep.
      + inversion Hstep; subst s'. cbn [workers after] in Hfail'.
        destruct (update_split _ _ (Failed e) _ Hi) as (l1 & l2 & _ & Hup).
        rewrite Hup, failed_app in Hfail'.
        apply app_eq_nil in Hfail'. destruct Hfail' as [_ Hfail'].
        discriminate.
      + assert (Hshape : exists sh' w tail,
                   s' = System sh' (update i w (workers s)) (sink s)
                          (trace s ++ pre ++ map PutWriter divs
                             ++ map Put subs ++ tail)
                   /\ dequeued tail = []
                   /\ (w = Idle \/ exists e, w = Failed e)).
        { destruct (Queue.unfinished_tasks (queue (sh s)) + length subs);
            inversion Hstep; subst s'; eexists _, _, _;
            (split; [reflexivity|]); (split; [reflexivity|]);
            [right; now eexists|now left]. }
        destruct Hshape as (sh' & w & tail & -> & Htail & Hw').
        cbn [trace workers] in *.
        destruct (update_split _ _ w _ Hi) as (l1 & l2 & Hws & Hup).
        rewrite Hup in *.
        destruct (turn_trace pre divs subs tail Hq) as (E1 & _).
        cbv zeta in E1.
        rewrite dequeued_app, E1, Htail, app_nil_r, Hdeq in Hdeq'.
        rewrite Hws, in_flight_app in Hif.
        change (in_flight (Busy u :: l2)) with ([u] ++ in_flight l2) in Hif.
        apply (f_equal (@length str)) in Hif. rewrite !length_app in Hif.
        rewrite failed_app in Hfail'. apply app_eq_nil in Hfail'.
        destruct Hfail' as [_ Hfail'].
        rewrite in_flight_app, !length_app in *.
        destruct Hw' as [->|[e ->]]; [|discriminate Hfail'].
        change (in_flight (Idle :: l2)) with (in_flight l2) in *.
        cbn [length] in *. lia. }
  intros n. induction n as [|n IH]; intros s Hreach Hn.
  - destruct (Hnext s Hreach) as [Hj|(a & s' & _ & _ & Hlt)]; [|lia].
    now exists [], s.
  - destruct (Hnext s Hreach) as [Hj|(a & s' & Hperm & Hstep & Hlt)].
    + now exists [], s.
    + destruct (IH s' (reachable_step _ _ _ _ _ _ Hreach Hperm Hstep))
        as (sched & s'' & Hrun & Hj); [lia|].
      exists (a :: sched), s''. split; [|exact Hj].
      cbn [exec]. now rewrite Hperm, Hstep.
Qed.

Lemma exec_reachable (net : network) (url : str) (ntasks : Z)
  (s s' : system) (sched : list action) :
  reachable net url ntasks s -> exec net s sched = Some s' ->
  reachable net url ntasks s'.
Proof.
  intros [sched0 Hrun] Hexec. exists (sched0 ++ sched).
  now rewrite exec_app, Hrun.
Qed.

(** A step adds its events to the trace. *)
Lemma step_trace (s s' : system) (a : action) :
  step s a = Some s' -> exists evs, trace s' = trace s ++ evs.
Proof.
  destruct a as [i|i resp| |]; unfold step; intros Hstep.
  - destruct (nth_error (workers s) i) as [[|u|e]|]; try discriminate.
    destruct (Queue.get_nowait (queue (sh s))) as [[u q]|]; [|discriminate].
    inversion Hstep; subst s'. now eexists.
  - destruct (nth_error (workers s) i) as [[|u|e]|]; try discriminate.
    destruct (worker_resume resp u (sh s)) as [[sh' evs] r].
    inversion Hstep; subst s'. now eexists.
  - destruct (sink s); try discriminate.
    destruct (writer_start (sh s)) as [[sh' evs] r].
    inversion Hstep; subst s'. now eexists.
  - destruct (sink s); try discriminate.
    destruct (Queue.get_nowait (queue_writer (sh s))) as [[d q]|];
      [|discriminate].
    destruct (writer_resume d _) as [[sh' evs] r].
    inversion Hstep; subst s'. now eexists.
Qed.

Lemma exec_trace (net : network) (sched : list action) :
  forall s s',
    exec net s sched = Some s' -> exists evs, trace s' = trace s ++ evs.
Proof.
  induction sched as [|a sched IH]; intros s s' Hexec; simpl in Hexec.
  - inversion Hexec; subst. exists []. now rewrite app_nil_r.
  - destruct (permitted net s a); [|discriminate].
    destruct (step s a) as [s1|] eqn:Hstep; [|discriminate].
    destruct (step_trace _ _ _ Hstep) as [ev1 H1].
    destruct (IH _ _ Hexec) as [ev2 H2].
    exists (ev1 ++ ev2). now rewrite H2, H1, app_assoc.
Qed.

(** On a site that is a tree, once every page has been taken from the
    queue, the join goes through as soon as no worker holds a page. *)
Lemma all_dequeued_joins (web : str -> response) (T : tree) (ntasks : Z)
  (s s' : system) (sched : list action) :
  site web T = true ->
  reachable (served web) (root T) ntasks s ->
  Permutation (dequeued (trace s)) (urls T) ->
  exec (served web) s sched = Some s' ->
  Queue.items (queue (sh s')) = []
  /\ (in_flight (workers s') = [] -> queue_joined s' = true).
Proof.
  intros Hsite Hreach Hall Hexec.
  pose proof (exec_reachable _ _ _ _ _ _ Hreach Hexec) as Hreach'.
  destruct (tree_counts web T ntasks s' Hsite Hreach')
    as (_ & Hunf & Hle & Hdeq).
  destruct (exec_trace _ _ _ _ Hexec) as [evs Htr].
  apply Permutation_length in Hall.
  assert (Hd : dequeued (trace s') = dequeued (trace s) ++ dequeued evs)
    by (rewrite Htr; apply dequeued_app).
  rewrite Hd, length_app in Hdeq.
  assert (Hitems : Queue.items (queue (sh s')) = [])
    by (apply length_zero_iff_nil; lia).
  split; [exact Hitems|].
  intros Hi. unfold queue_joined, Queue.joined.
  rewrite Hunf, Hitems, Hi. reflexivity.
Qed.

End Progress.

Section Join.

Context {L : Library}.

Lemma joined_zero {A} (q : Queue.t A) :
  Queue.joined q = true <-> Queue.unfinished_tasks q = 0.
Proof. unfold Queue.joined. apply Nat.eqb_eq. Qed.

(** C1.  A turn of the worker that ends without an exception marks the
    task done once, as its last call, after it has put the divisions of
    the page and then its links on the queues; when the request failed or
    the body has the marker the one link it puts is the address of the
    page.  So in every state of a run the count of unfinished pages is the
    number of pages that are on the queue, in the hands of a worker or
    were held by a worker that an exception ended: when the join of the
    queue goes through no page is on the queue or in the hands of a
    worker.  On a site that is a finite tree, served without failure, the
    join goes through exactly when every page of the tree has been taken
    from the queue once and no worker holds a page, that is when every
    page has been marked done once.  Once every page has been taken, the
    queue stays empty and the join goes through as soon as the turns in
    progress are over; and with one worker at least the run can always go
    on to a state where the join goes through. *)
Theorem task_done_once :
  (forall resp url s s' evs,
      worker_resume resp url s = (s', evs, Ok tt) ->
      exists pre divs subs,
        analyze_page resp url s = (s, pre, Ok (divs, subs))
        /\ evs = (pre ++ map PutWriter divs) ++ map Put subs
                 ++ [Scanned; TaskDone url]
        /\ processed (pre ++ map PutWriter divs) = []
        /\ enqueued (pre ++ map PutWriter divs) = []
        /\ processed evs = [url]
        /\ enqueued evs = subs
        /\ S (Queue.unfinished_tasks (queue s'))
           = Queue.unfinished_tasks (queue s) + length subs
        /\ (resp = ClientError -> subs = [url])
        /\ (forall html,
              resp = Text html -> contains marker html = true -> subs = [url]))
  /\ (forall net url ntasks s,
        reachable net url ntasks s ->
        Queue.unfinished_tasks (queue (sh s))
        = length (Queue.items (queue (sh s))) + length (in_flight (workers s))
          + length (failed (workers s))
        /\ (queue_joined s = true ->
            Queue.items (queue (sh s)) = [] /\ in_flight (workers s) = []))
  /\ (forall web T ntasks s,
        site web T = true ->
        reachable (served web) (root T) ntasks s ->
        (queue_joined s = true <->
         Permutation (dequeued (trace s)) (urls T)
         /\ in_flight (workers s) = [])
        /\ (queue_joined s = true <->
            Permutation (processed (trace s)) (urls T))
        /\ (Permutation (dequeued (trace s)) (urls T) ->
            forall sched s',
              exec (served web) s sched = Some s' ->
              Queue.items (queue (sh s')) = []
              /\ (in_flight (workers s') = [] -> queue_joined s' = true))
        /\ ((0 < ntasks)%Z ->
            exists sched s',
              exec (served web) s sched = Some s'
              /\ queue_joined s' = true)).
Proof.
  split; [|split].
  - intros resp url s s' evs Hturn.
    destruct (worker_resume_cases resp url s)
      as (pre & Hq & [(e & _ & Hw)|(divs & subs & Ha & Hw)]);
      rewrite Hw in Hturn; [discriminate|].
    destruct (Queue.unfinished_tasks (queue s) + length subs) as [|n] eqn:Hn;
      [discriminate|].
    inversion Hturn; subst s' evs; clear Hturn.
    exists pre, divs, subs.
    destruct (turn_trace pre divs subs [Scanned; TaskDone url] Hq)
      as (_ & E2 & E3 & _ & _).
    destruct (turn_trace pre divs [] [] Hq) as (_ & F2 & F3 & _ & _).
    cbv zeta in E2, E3, F2, F3. cbn [map app] in F2, F3.
    rewrite app_nil_r in F2, F3.
    split; [exact Ha|]. split; [now rewrite <- app_assoc|].
    split; [exact F3|]. split; [exact F2|].
    split; [exact E3|]. split; [now rewrite E2, app_nil_r|].
    split; [cbn; lia|]. split.
    + intros ->. rewrite analyze_page_error in Ha. now inversion Ha.
    + intros html -> Hm. rewrite analyze_page_marked in Ha by exact Hm.
      now inversion Ha.
  - intros net url ntasks s Hreach.
    destruct (frontier_invariant net url ntasks s Hreach) as (Hunf & _ & _).
    split; [exact Hunf|].
    unfold queue_joined. rewrite joined_zero, Hunf. intros H0.
    split; apply length_zero_iff_nil; lia.
  - intros web T ntasks s Hsite Hreach.
    destruct (frontier_invariant _ _ _ _ Hreach) as (Hunf & _ & _).
    destruct (tree_invariant web T ntasks s Hsite Hreach)
      as (F & _ & Hroots & Hurls & Hfail & Hdeq).
    rewrite Hfail in Hunf. cbn [length] in Hunf.
    unfold queue_joined. rewrite joined_zero.
    assert (Hdone : Permutation (processed (trace s)) (urls T) ->
                    Queue.unfinished_tasks (queue (sh s)) = 0).
    { intros Hp. apply Permutation_length in Hp, Hurls, Hroots.
      rewrite length_app in Hurls, Hroots.
      assert (HF : F = []).
      { apply forest_urls_nil, length_zero_iff_nil. lia. }
      subst F. cbn in Hroots. lia. }
    assert (Hall : Queue.unfinished_tasks (queue (sh s)) = 0 ->
                   Permutation (processed (trace s)) (urls T)
                   /\ in_flight (workers s) = []).
    { intros H0.
      assert (Hi : in_flight (workers s) = [])
        by (apply length_zero_iff_nil; lia).
      assert (Hq : Queue.items (queue (sh s)) = [])
        by (apply length_zero_iff_nil; lia).
      rewrite Hi, Hq in Hroots. cbn in Hroots.
      apply Permutation_sym, Permutation_nil, map_eq_nil in Hroots.
      subst F. cbn in Hurls. rewrite app_nil_r in Hurls.
      split; [now apply Permutation_sym|exact Hi]. }
    split; [split|split; [split|split]].
    + intros H0. destruct (Hall H0) as [Hp Hi].
      split; [|exact Hi].
      rewrite Hi, app_nil_r in Hdeq. now rewrite Hdeq.
    + intros [Hp Hi]. apply Hdone.
      rewrite Hi, app_nil_r in Hdeq. now rewrite <- Hdeq.
    + intros H0. now destruct (Hall H0).
    + exact Hdone.
    + intros Hp sched s' Hexec.
      exact (all_dequeued_joins web T ntasks s s' sched Hsite Hreach Hp Hexec).
    + intros Hpos. now apply (join_reached web T ntasks Hsite Hpos _ s Hreach (le_n _)).
Qed.

End Join.

(** * The examples, run *)

Section Runs.

Import Example.

(** On the page of two levels the rows of the cities are used, although a
    row of a county comes first in the page; the page with no table gives
    nothing. *)
Lemma extract_first_level_witness :
  rows (bs "<mixed>") #"province" = []
  /\ rows (bs "<mixed>") #"city" <> []
  /\ rows (bs "<mixed>") #"county" <> []
  /\ @extract library (bs "<mixed>") top_url
     = @extract_rows library #"city" (rows (bs "<mixed>") #"city") top_url
  /\ (forall divs subs,
         @extract library (bs "<mixed>") top_url = Ok (divs, subs) ->
         Forall (fun d => level_of d = #"city") divs)
  /\ @extract library (bs "<mixed>") top_url
     = Ok ([(#"110100000000", #"Beijing City", #"city")], [])
  /\ @extract library (bs "<leaf>") top_url = Ok ([], []).
Proof.
  assert (Hprov : rows (bs "<mixed>") #"province" = []) by reflexivity.
  assert (Hcity : rows (bs "<mixed>") #"city" <> [])
    by (vm_compute; discriminate).
  assert (Hcounty : rows (bs "<mixed>") #"county" <> [])
    by (vm_compute; discriminate).
  assert (Hbefore : forall t', In t' [#"province"] ->
                              rows (bs "<mixed>") t' = []).
  { intros t' [<-|[]]. exact Hprov. }
  destruct (@extract_first_level library #"<mixed>" top_url)
    as (_ & _ & Hsome & _).
  pose proof (Hsome [#"province"] #"city" [#"county"; #"town"; #"village"]
                eq_refl Hbefore Hcity) as [Hrows Hlevel].
  destruct (@extract_first_level library #"<leaf>" top_url)
    as (_ & Hnone & _).
  split; [exact Hprov|]. split; [exact Hcity|]. split; [exact Hcounty|].
  split; [exact Hrows|]. split; [exact Hlevel|].
  split; [vm_compute; reflexivity|].
  apply Hnone.
  intros t [<-|[<-|[<-|[<-|[<-|[]]]]]]; reflexivity.
Defined.

(** The two provinces of the top page. *)
Lemma province_code_witness :
  rows (bs "<top>") #"province" <> []
  /\ @extract library (bs "<top>") top_url
     = Ok ([(#"110000000000", #"Beijing", #"province");
            (#"120000000000", #"Tianjin", #"province")],
           [page "11.html"; page "12.html"])
  /\ Forall
       (fun td =>
          code_of (province_division #"province" td)
          = stem (target td) ++ repeat (chr "0") 10
          /\ length (code_of (province_division #"province" td))
             = length (stem (target td)) + 10)
       (flat_map cells (rows (bs "<top>") #"province")).
Proof.
  assert (Hrows : rows (bs "<top>") #"province" <> [])
    by (vm_compute; discriminate).
  assert (Hok : @extract library (bs "<top>") top_url
                = Ok ([(#"110000000000", #"Beijing", #"province");
                       (#"120000000000", #"Tianjin", #"province")],
                      [page "11.html"; page "12.html"]))
    by (vm_compute; reflexivity).
  split; [exact Hrows|]. split; [exact Hok|].
  destruct (@province_code library #"<top>" top_url _ _ Hrows Hok)
    as [_ Hall].
  eapply Forall_impl; [|exact Hall].
  intros td (_ & _ & _ & _ & _ & Hcode & Hlen & _).
  split; [exact Hcode|exact Hlen].
Defined.

(** C3 as it was stated fails: a link target with a name of three
    characters gives a code of thirteen. *)
Lemma province_code_width_counterexample :
  exists code name subs,
    @extract library (bs "<long_stem>") top_url
    = Ok ([(code, name, #"province")], subs)
    /\ length code <> 12.
Proof.
  exists #"1100000000000", #"Beijing", [page "110.html"].
  split; [vm_compute; reflexivity|vm_compute; discriminate].
Defined.


(** C6 as it was stated fails: the extraction returns the name of the
    first town with the white space it has in the page. *)
Lemma name_trimmed_counterexample :
  exists d divs subs,
    @extract library (bs "<towns>") top_url = Ok (divs, subs)
    /\ In d divs
    /\ name_of d = #" Donghuamen "
    /\ trimmed (name_of d) = false.
Proof.
  exists donghuamen, [donghuamen; (#"110101002000", #"Jingshan", #"town")],
    [page "01/110101001.html"].
  split; [vm_compute; reflexivity|]. split; [now left|].
  split; reflexivity.
Defined.

(** The writer strips that name. *)
Lemma name_stripped_by_writer_witness :
  csvfile open_file = Some [fieldnames]
  /\ Queue.unfinished_tasks (queue_writer open_file) <> 0
  /\ exists s',
      writer_resume donghuamen open_file
      = (s', [WriteRow (row_of donghuamen); TaskDoneWriter; Saved], Ok tt)
      /\ csvfile s'
         = Some [fieldnames; [#"110101001000"; #"Donghuamen"; #"town"]]
      /\ trimmed #"Donghuamen" = true.
Proof.
  assert (Hfile : csvfile open_file = Some [fieldnames]) by reflexivity.
  assert (Hunf : Queue.unfinished_tasks (queue_writer open_file) <> 0)
    by (vm_compute; discriminate).
  split; [exact Hfile|]. split; [exact Hunf|].
  destruct (@name_stripped_by_writer library #"<towns>" top_url donghuamen
              open_file [fieldnames] Hfile Hunf)
    as (_ & _ & s' & Hw & Hrow & _ & Htrim).
  exists s'. split; [exact Hw|]. split; [exact Hrow|exact Htrim].
Defined.

Lemma finished_reachable :
  @reachable library (served web) top_url 2 finished.
Proof. exists schedule. vm_compute. reflexivity. Defined.

Lemma started_reachable :
  @reachable library (served web) top_url 2 started.
Proof. exists [Dequeue 0]. vm_compute. reflexivity. Defined.

(** The file at the end of the run on the site of four pages. *)
Lemma writer_rows_witness :
  @reachable library (served web) top_url 2 finished
  /\ queue_writer_joined finished = true
  /\ csvfile (sh finished)
     = Some [[#"code"; #"name"; #"level"];
             [#"110000000000"; #"Beijing"; #"province"];
             [#"120000000000"; #"Tianjin"; #"province"];
             [#"110100000000"; #"Beijing City"; #"city"]]
  /\ csvfile (sh finished)
     = Some (fieldnames :: map row_of (consumed (trace finished)))
  /\ consumed (trace finished) = emitted (trace finished)
  /\ length (map row_of (consumed (trace finished)))
     = length (emitted (trace finished)).
Proof.
  assert (Hj : queue_writer_joined finished = true) by (vm_compute; reflexivity).
  assert (Hf : csvfile (sh finished)
               = Some [[#"code"; #"name"; #"level"];
                       [#"110000000000"; #"Beijing"; #"province"];
                       [#"120000000000"; #"Tianjin"; #"province"];
                       [#"110100000000"; #"Beijing City"; #"city"]])
    by (vm_compute; reflexivity).
  destruct (@writer_rows library (served web) top_url 2 finished
              finished_reachable)
    as (_ & Hfile & _ & _ & _ & Hjoin).
  destruct (Hjoin Hj) as [Hsame Hlen].
  split; [exact finished_reachable|]. split; [exact Hj|]. split; [exact Hf|].
  split; [|split; [exact Hsame|exact Hlen]].
  rewrite Hf. exact (f_equal Some (Hfile _ Hf)).
Defined.



(** The links of the top page are absolute. *)
Lemma subpages_absolute_witness :
  absolute top_url
  /\ (forall href, absolute (@urljoin library top_url href))
  /\ (exists divs,
         @analyze_page library (Text #"<top>") top_url (sh started)
         = (sh started, [], Ok (divs, [page "11.html"; page "12.html"])))
  /\ Forall absolute [page "11.html"; page "12.html"]
  /\ [page "11.html"; page "12.html"]
     = map (@urljoin library top_url) (raw_links (bs "<top>")).
Proof.
  assert (Habs : absolute top_url) by reflexivity.
  assert (Hjoin : forall href, absolute (@urljoin library top_url href))
    by (intros href; reflexivity).
  assert (Hpage : @analyze_page library (Text #"<top>") top_url (sh started)
                  = (sh started, [],
                     Ok ([(#"110000000000", #"Beijing", #"province");
                          (#"120000000000", #"Tianjin", #"province")],
                         [page "11.html"; page "12.html"])))
    by (vm_compute; reflexivity).
  destruct (@subpages_absolute library absolute _ _ _ _ _ _ _ Habs Hjoin Hpage)
    as [Hall Hraw].
  split; [exact Habs|]. split; [exact Hjoin|]. split; [eexists; exact Hpage|].
  split; [exact Hall|].
  apply (Hraw #"<top>" eq_refl). vm_compute. reflexivity.
Defined.

(** A body with the marker and with the two rows of the top page. *)
Lemma marker_first_witness :
  contains marker #"<top> jsjiami.com.v6" = true
  /\ rows (bs "<top> jsjiami.com.v6") #"province" <> []
  /\ @analyze_page library (Text #"<top> jsjiami.com.v6") top_url (sh started)
     = (sh started, [LogWarning top_url; Sleep 60], Ok ([], [top_url])).
Proof.
  assert (Hm : contains marker #"<top> jsjiami.com.v6" = true)
    by (vm_compute; reflexivity).
  split; [exact Hm|]. split; [vm_compute; discriminate|].
  exact (@marker_first library #"<top> jsjiami.com.v6" top_url (sh started) Hm).
Defined.


(** The run on the site of four pages: the join goes through at its end,
    when each of the four pages has been taken once. *)
Lemma task_done_once_witness :
  @site library web site_tree = true
  /\ @reachable library (served web) top_url 2 finished
  /\ queue_joined finished = true
  /\ Permutation (dequeued (trace finished)) (urls site_tree)
  /\ Permutation (processed (trace finished)) (urls site_tree)
  /\ Queue.items (queue (sh finished)) = []
  /\ in_flight (workers finished) = []
  /\ queue_joined started = false
  /\ ~ Permutation (processed (trace started)) (urls site_tree)
  /\ exists s' evs,
      @worker_resume library (Text #"<top>") top_url (sh started)
      = (s', evs, Ok tt)
      /\ processed evs = [top_url]
      /\ enqueued evs = [page "11.html"; page "12.html"]
      /\ Queue.unfinished_tasks (queue s') = 2.
Proof.
  assert (Hsite : @site library web site_tree = true)
    by (vm_compute; reflexivity).
  assert (Hj : queue_joined finished = true) by (vm_compute; reflexivity).
  assert (Hnj : queue_joined started = false) by (vm_compute; reflexivity).
  destruct (@task_done_once library) as (Hturn & Hcount & Htree).
  destruct (Htree web site_tree 2%Z finished Hsite finished_reachable)
    as (Hdeq & Hdone & _ & _).
  destruct (proj1 Hdeq Hj) as [Hd _].
  destruct (Hcount (served web) top_url 2%Z finished finished_reachable)
    as [_ Hempty].
  destruct (Hempty Hj) as [Hq Hi].
  destruct (Htree web site_tree 2%Z started Hsite started_reachable)
    as (_ & Hdone' & _ & _).
  destruct (@worker_resume library (Text #"<top>") top_url (sh started))
    as [[s' evs] r] eqn:Hw.
  assert (Hr : r = Ok tt).
  { vm_compute in Hw. now inversion Hw. }
  subst r.
  destruct (Hturn _ _ _ _ _ Hw)
    as (pre & divs & subs & Ha & Hevs & _ & _ & Hp & He & Hunf & _).
  assert (Hs : subs = [page "11.html"; page "12.html"]).
  { vm_compute in Ha. inversion Ha. reflexivity. }
  split; [exact Hsite|]. split; [exact finished_reachable|].
  split; [exact Hj|]. split; [exact Hd|]. split; [exact (proj1 Hdone Hj)|].
  split; [exact Hq|]. split; [exact Hi|]. split; [exact Hnj|]. split.
  - intros Hp'. apply (proj2 Hdone') in Hp'. congruence.
  - exists s', evs. split; [reflexivity|]. split; [exact Hp|].
    split; [now rewrite He, Hs|].
    rewrite Hs in Hunf. vm_compute in Hunf. now inversion Hunf.
Defined.

End Runs.

(** * More properties of the code *)

(** ** The code of a province, the text the writer keeps, the marker *)

Section MoreStrings.

Lemma last_app_r {A} (l l' : list A) (d : A) :
  l' <> [] -> last (l ++ l') d = last l' d.
Proof.
  intros Hne. induction l as [|x l IH]; [reflexivity|].
  simpl. destruct (l ++ l') eqn:E; [|exact IH].
  apply app_eq_nil in E. now destruct E.
Qed.

(** A string with a separator is split into the pieces of what comes
    before it, which are there, and the pieces of what comes after. *)
Lemma split_app (sep : char) (a b : str) :
  exists pieces, pieces <> [] /\ split sep (a ++ sep :: b) = pieces ++ split sep b.
Proof.
  induction a as [|c a (pieces & Hne & IH)]; simpl.
  - rewrite N.eqb_refl. exists [[]]. split; [discriminate|reflexivity].
  - rewrite IH. destruct pieces as [|w ps]; [contradiction|].
    destruct (c =? sep)%N.
    + exists ([] :: w :: ps). split; [discriminate|reflexivity].
    + exists ((c :: w) :: ps). split; [discriminate|reflexivity].
Qed.

Lemma split_single (sep : char) (s : str) : ~ In sep s -> split sep s = [s].
Proof.
  induction s as [|c s IH]; simpl; [reflexivity|]. intros Hfree.
  destruct (N.eqb_spec c sep) as [E|E]; [tauto|].
  rewrite IH by tauto. reflexivity.
Qed.

Lemma last_split_app (sep : char) (a b : str) :
  ~ In sep b -> last_ (split sep (a ++ sep :: b)) = b.
Proof.
  intros Hfree. destruct (split_app sep a b) as (pieces & _ & ->).
  unfold last_. rewrite last_app_r by apply split_not_nil.
  now rewrite split_single.
Qed.

Lemma before_app (sep : char) (a b : str) :
  ~ In sep a -> before sep (a ++ sep :: b) = a.
Proof.
  induction a as [|c a IH]; simpl; intros Hfree.
  - now rewrite N.eqb_refl.
  - destruct (N.eqb_spec c sep) as [E|E]; [tauto|].
    rewrite IH by tauto. reflexivity.
Qed.

Lemma before_all (sep : char) (a : str) : ~ In sep a -> before sep a = a.
Proof.
  induction a as [|c a IH]; simpl; intros Hfree; [reflexivity|].
  destruct (N.eqb_spec c sep) as [E|E]; [tauto|].
  rewrite IH by tauto. reflexivity.
Qed.

(** The name of the file a link points to, without what follows its first
    dot. *)
Lemma stem_path (dir name ext : str) :
  ~ In (chr "/") name -> ~ In (chr ".") name -> ~ In (chr "/") ext ->
  stem (dir ++ chr "/" :: name ++ chr "." :: ext) = name
  /\ stem (name ++ chr "." :: ext) = name
  /\ stem (dir ++ chr "/" :: name) = name
  /\ stem name = name.
Proof.
  intros Hname Hdot Hext.
  assert (Hfile : ~ In (chr "/") (name ++ chr "." :: ext)).
  { intros H. apply in_app_or in H. destruct H as [H|[H|H]];
      [tauto|discriminate H|tauto]. }
  unfold stem. rewrite !first_split.
  rewrite !last_split_app by assumption.
  unfold last_. rewrite !split_single by assumption. cbn [last].
  rewrite !before_app by assumption. rewrite before_all by assumption.
  tauto.
Qed.

Lemma lstrip_blank (s : str) :
  exists pre, s = pre ++ lstrip s /\ blank pre = true.
Proof.
  induction s as [|c s (pre & IH & Hb)]; simpl.
  - now exists [].
  - destruct (isspace c) eqn:Hc.
    + exists (c :: pre). split; [simpl; f_equal; exact IH|]. simpl. now rewrite Hc.
    + now exists [].
Qed.

Lemma blank_rev (s : str) : blank s = true -> blank (rev s) = true.
Proof.
  unfold blank. rewrite !forallb_forall. intros H c Hin.
  apply H. now apply in_rev.
Qed.

Lemma rstrip_blank (s : str) :
  exists post, s = rstrip s ++ post /\ blank post = true.
Proof.
  unfold rstrip. destruct (lstrip_blank (rev s)) as (pre & E & Hb).
  exists (rev pre). split; [|now apply blank_rev].
  rewrite <- rev_app_distr, <- E. now rewrite rev_involutive.
Qed.

(** [strip] takes white space away at both ends and nothing else. *)
Lemma strip_blank (s : str) :
  exists pre post,
    s = pre ++ strip s ++ post /\ blank pre = true /\ blank post = true.
Proof.
  unfold strip. destruct (lstrip_blank s) as (pre & E & Hb).
  destruct (rstrip_blank (lstrip s)) as (post & E' & Hb').
  exists pre, post. split; [|tauto]. now rewrite <- E', <- E.
Qed.

Lemma lstrip_trimmed (s : str) : trimmed s = true -> lstrip s = s.
Proof.
  destruct s as [|c r]; [reflexivity|]. simpl. intros H.
  apply andb_true_iff in H. destruct H as [H _].
  apply negb_true_iff in H. now rewrite H.
Qed.

Lemma rstrip_trimmed (s : str) : trimmed s = true -> rstrip s = s.
Proof.
  destruct s as [|c r]; [reflexivity|]. intros H.
  unfold trimmed in H. apply andb_true_iff in H. destruct H as [_ H].
  apply negb_true_iff in H.
  assert (Hne : c :: r <> []) by discriminate.
  destruct (exists_last Hne) as (init & z & E).
  rewrite E in H |- *. rewrite last_last in H.
  unfold rstrip. rewrite rev_app_distr. simpl. rewrite H.
  simpl. now rewrite rev_involutive.
Qed.

(** A string with no white space at its ends is left as it is. *)
Lemma strip_id (s : str) : trimmed s = true -> strip s = s.
Proof.
  intros H. unfold strip. rewrite (lstrip_trimmed s H).
  now apply rstrip_trimmed.
Qed.

Lemma startswith_iff (p s : str) :
  startswith p s = true <-> exists post, s = p ++ post.
Proof.
  revert s. induction p as [|a p IH]; intros s; simpl.
  - split; [intros _; now exists s|reflexivity].
  - destruct s as [|b s].
    + split; [discriminate|]. intros (post & E). discriminate.
    + rewrite andb_true_iff, N.eqb_eq, IH. split.
      * intros (-> & post & ->). now exists post.
      * intros (post & E). inversion E; subst. split; [reflexivity|].
        now exists post.
Qed.

(** [needle in hay]: the needle stands somewhere in the hay. *)
Lemma contains_iff (needle hay : str) :
  contains needle hay = true <-> exists pre post, hay = pre ++ needle ++ post.
Proof.
  induction hay as [|c hay IH].
  - simpl. rewrite orb_false_r, startswith_iff. split.
    + intros (post & E). now exists [], post.
    + intros (pre & post & E). destruct pre as [|x pre]; [|discriminate].
      now exists post.
  - cbn [contains]. rewrite orb_true_iff, startswith_iff, IH. split.
    + intros [(post & E)|(pre & post & E)].
      * now exists [], post.
      * exists (c :: pre), post. simpl. now rewrite E.
    + intros (pre & post & E). destruct pre as [|x pre].
      * left. now exists post.
      * right. inversion E; subst. now exists pre, post.
Qed.

End MoreStrings.

Section MoreExtraction.

Context {L : Library}.

(** X1.  On a province page, a cell whose link points to [dir/name.ext],
    or to [name.ext], where [name] has no slash and no dot and [ext] has
    no slash, gives the division of code [name] followed by ten zeros, and
    the link as it stands. *)
Theorem code_of_link (t : str) (td a : element) (dir name ext : str)
  (d0 : list division) (s0 : list str) :
  find #"a" td = Some a ->
  ~ In (chr "/") name -> ~ In (chr ".") name -> ~ In (chr "/") ext ->
  (get a #"href" = Some (dir ++ chr "/" :: name ++ chr "." :: ext) ->
   province_td t (d0, s0) td
   = Ok (d0 ++ [(name ++ repeat (chr "0") 10, text td, t)],
         s0 ++ [dir ++ chr "/" :: name ++ chr "." :: ext]))
  /\ (get a #"href" = Some (name ++ chr "." :: ext) ->
      province_td t (d0, s0) td
      = Ok (d0 ++ [(name ++ repeat (chr "0") 10, text td, t)],
            s0 ++ [name ++ chr "." :: ext])).
Proof.
  intros Hfind Hname Hdot Hext.
  destruct (stem_path dir name ext Hname Hdot Hext) as (H1 & H2 & _).
  split; intros Hget; unfold province_td; rewrite Hfind; cbn [deref rbind];
    rewrite Hget; cbn [deref rbind]; unfold times.
  - now rewrite H1.
  - now rewrite H2.
Qed.

(** X2.  The row the writer writes for a division carries its level, and
    its code and its name without the white space at their ends: what is
    taken away on either side is white space only, and a code or a name
    with no white space at its ends is written as it is. *)
Theorem writer_keeps_text (d : division) (s : shared)
  (file : list (list str)) :
  csvfile s = Some file ->
  Queue.unfinished_tasks (queue_writer s) <> 0 ->
  exists s' c n,
    writer_resume d s
    = (s', [WriteRow [c; n; level_of d]; TaskDoneWriter; Saved], Ok tt)
    /\ csvfile s' = Some (file ++ [[c; n; level_of d]])
    /\ (exists pre post,
           code_of d = pre ++ c ++ post
           /\ blank pre = true /\ blank post = true)
    /\ (exists pre post,
           name_of d = pre ++ n ++ post
           /\ blank pre = true /\ blank post = true)
    /\ (trimmed (code_of d) = true -> c = code_of d)
    /\ (trimmed (name_of d) = true -> n = name_of d).
Proof.
  intros Hfile Hunf. rewrite writer_resume_eq. cbv zeta. rewrite Hfile.
  destruct (Queue.unfinished_tasks (queue_writer s)); [contradiction|].
  destruct d as [[code name] level].
  cbn [row_of code_of name_of level_of fst snd].
  eexists _, (strip code), (strip name).
  split; [reflexivity|]. split; [reflexivity|].
  split; [apply strip_blank|]. split; [apply strip_blank|].
  split; apply strip_id.
Qed.

(** X3.  [analyze_page] takes a body for a sign of too many requests
    exactly when the marker stands somewhere in it: then it warns, sleeps
    60 seconds and returns the address of the page; any other body is
    parsed. *)
Theorem rate_limited_iff (html url : str) (s : shared) :
  ((exists pre post, html = pre ++ marker ++ post) <->
   analyze_page (Text html) url s
   = (s, [LogWarning url; Sleep 60], Ok ([], [url])))
  /\ (~ (exists pre post, html = pre ++ marker ++ post) ->
      analyze_page (Text html) url s
      = (s, [], extract (BeautifulSoup html) url)).
Proof.
  rewrite <- contains_iff. split; [split|].
  - apply analyze_page_marked.
  - intros Hpage. destruct (contains marker html) eqn:Hm; [reflexivity|].
    rewrite analyze_page_text in Hpage by exact Hm. discriminate.
  - intros Hno. apply analyze_page_text.
    now destruct (contains marker html).
Qed.

Lemma extract_closed (bs4_obj : element) (url : str) :
  extract bs4_obj url =
  match select_level bs4_obj admin_types with
  | None => Ok ([], [])
  | Some (t, trs) =>
      if str_eqb t #"province" then
        if forallb (fun tr => forallb has_target (cells tr)) trs
        then Ok (map (province_division #"province") (flat_map cells trs),
                 map (urljoin url) (map target (flat_map cells trs)))
        else Raise AttributeError
      else
        if forallb has_cells trs
        then Ok (map (other_division t) trs,
                 map (urljoin url) (flat_map row_links trs))
        else Raise IndexError
  end.
Proof.
  unfold extract.
  destruct (select_level bs4_obj admin_types) as [[t trs]|]; [|reflexivity].
  destruct (str_eqb t #"province") eqn:Ht.
  - apply str_eqb_eq in Ht. subst t. apply extract_rows_province.
  - apply str_eqb_neq in Ht. now apply extract_rows_other.
Qed.



Lemma row_links_length (trs : list element) :
  length (flat_map row_links trs) <= length trs.
Proof.
  induction trs as [|tr trs IH]; simpl; [lia|].
  rewrite length_app. unfold row_links at 1.
  destruct (cells tr) as [|td0 tds]; [simpl; lia|].
  destruct (link_target td0); simpl; lia.
Qed.

(** X5.  A page never gives more links than divisions; a province page
    gives as many links as divisions. *)
Theorem links_at_most_divisions (bs4_obj : element) (url : str)
  (divs : list division) (subs : list str) :
  extract bs4_obj url = Ok (divs, subs) ->
  length subs <= length divs
  /\ (rows bs4_obj #"province" <> [] -> length subs = length divs).
Proof.
  rewrite extract_closed.
  destruct (select_level bs4_obj admin_types) as [[t trs]|] eqn:Hsel.
  - destruct (str_eqb t #"province") eqn:Ht.
    + destruct (forallb _ trs); [|discriminate].
      intros E. inversion E; subst. rewrite !length_map. split; [lia|reflexivity].
    + destruct (forallb has_cells trs); [|discriminate].
      intros E. inversion E; subst. rewrite !length_map.
      split; [apply row_links_length|].
      intros Hprov. exfalso.
      apply select_level_some in Hsel.
      destruct Hsel as (before & after & Hlist & Hbefore & _).
      apply str_eqb_neq in Ht.
      destruct before as [|b before]; inversion Hlist; subst; [congruence|].
      apply Hprov, Hbefore. now left.
  - intros E. inversion E; subst. split; [simpl; lia|].
    intros Hprov. exfalso. apply Hprov.
    apply (proj1 (select_level_none _ _) Hsel). now left.
Qed.

End MoreExtraction.

(** ** The steps of a run, case by case *)

Section Steps.

Context {L : Library}.

(** In a state of a run, [task_done()] has a task to mark done: a step is
    a worker that takes a page, a worker whose analysis raises, a worker
    that ends its turn, the writer that opens its file or the writer that
    writes a row. *)
Lemma reachable_step_cases (net : network) (url : str) (ntasks : Z)
  (s s' : system) (a : action) :
  reachable net url ntasks s ->
  step s a = Some s' ->
  (exists i u rest l1 l2,
      a = Dequeue i
      /\ Queue.items (queue (sh s)) = u :: rest
      /\ workers s = l1 ++ Idle :: l2
      /\ s' = System
                (Shared
                   (Queue.Build rest (Queue.unfinished_tasks (queue (sh s))))
                   (queue_writer (sh s)) (csvfile (sh s))
                   (t_scanned (sh s)) (t_saved (sh s)))
                (l1 ++ Busy u :: l2) (sink s) (trace s ++ [Get u]))
  \/ (exists i resp u l1 l2 pre e,
         a = Respond i resp
         /\ nth_error (workers s) i = Some (Busy u)
         /\ workers s = l1 ++ Busy u :: l2
         /\ forallb quiet pre = true
         /\ analyze_page resp u (sh s) = (sh s, pre, Raise e)
         /\ s' = System (sh s) (l1 ++ Failed e :: l2) (sink s)
                   (trace s ++ pre))
  \/ (exists i resp u l1 l2 pre divs subs n,
         a = Respond i resp
         /\ nth_error (workers s) i = Some (Busy u)
         /\ workers s = l1 ++ Busy u :: l2
         /\ forallb quiet pre = true
         /\ analyze_page resp u (sh s) = (sh s, pre, Ok (divs, subs))
         /\ Queue.unfinished_tasks (queue (sh s)) + length subs = S n
         /\ s' = System (turn_state (sh s) divs subs n) (l1 ++ Idle :: l2)
                   (sink s)
                   (trace s ++ pre ++ map PutWriter divs ++ map Put subs
                      ++ [Scanned; TaskDone u]))
  \/ (a = SinkStart
      /\ sink s = Created
      /\ csvfile (sh s) = None
      /\ s' = System
                (Shared (queue (sh s)) (queue_writer (sh s))
                   (Some [fieldnames]) (t_scanned (sh s)) (t_saved (sh s)))
                (workers s) Waiting
                (trace s ++ [OpenFile; WriteRow fieldnames]))
  \/ (exists d rest file,
         a = SinkRow
         /\ sink s = Waiting
         /\ Queue.items (queue_writer (sh s)) = d :: rest
         /\ csvfile (sh s) = Some file
         /\ s' = System
                   (Shared (queue (sh s)) (Queue.Build rest (length rest))
                      (Some (file ++ [row_of d]))
                      (t_scanned (sh s)) (t_saved (sh s) + 1))
                   (workers s) Waiting
                   (trace s ++ [GetWriter d; WriteRow (row_of d);
                                TaskDoneWriter; Saved])).
Proof.
  intros Hreach Hstep.
  destruct (frontier_invariant _ _ _ _ Hreach) as (Hunf & _ & _).
  destruct (sink_invariant _ _ _ _ Hreach) as (Hunfw & _ & Hfile).
  destruct a as [i|i resp| |]; unfold step in Hstep.
  - destruct (nth_error (workers s) i) as [[|u|e]|] eqn:Hi; try discriminate.
    destruct (Queue.get_nowait (queue (sh s))) as [[u q]|] eqn:Hget;
      [|discriminate].
    unfold Queue.get_nowait in Hget.
    destruct (Queue.items (queue (sh s))) as [|u' rest] eqn:Hitems;
      [discriminate|].
    inversion Hget; subst u' q; clear Hget.
    inversion Hstep; subst s'; clear Hstep.
    destruct (update_split _ _ (Busy u) _ Hi) as (l1 & l2 & Hws & ->).
    left. exists i, u, rest, l1, l2. repeat split; assumption.
  - destruct (nth_error (workers s) i) as [[|u|e]|] eqn:Hi; try discriminate.
    destruct (worker_resume_cases resp u (sh s))
      as (pre & Hq & [(e & Ha & Hw)|(divs & subs & Ha & Hw)]);
      rewrite Hw in Hstep.
    + inversion Hstep; subst s'; clear Hstep.
      destruct (update_split _ _ (Failed e) _ Hi) as (l1 & l2 & Hws & ->).
      right; left. exists i, resp, u, l1, l2, pre, e.
      repeat split; assumption.
    + destruct (update_split _ _ Idle _ Hi) as (l1 & l2 & Hws & Hup).
      rewrite Hws, in_flight_app, !length_app in Hunf.
      cbn [in_flight flat_map app length] in Hunf.
      destruct (Queue.unfinished_tasks (queue (sh s)) + length subs) as [|n]
        eqn:Hn; [lia|].
      inversion Hstep; subst s'; clear Hstep. cbn [after]. rewrite Hup.
      right; right; left. exists i, resp, u, l1, l2, pre, divs, subs, n.
      repeat split; assumption.
  - destruct (sink s) eqn:Hsink; try discriminate.
    rewrite writer_start_eq in Hstep. inversion Hstep; subst s'; clear Hstep.
    destruct Hfile as [(_ & Hnone & _)|(Hw & _)]; [|discriminate].
    right; right; right; left. repeat split. exact Hnone.
  - destruct (sink s) eqn:Hsink; try discriminate.
    destruct (Queue.get_nowait (queue_writer (sh s))) as [[d q]|] eqn:Hget;
      [|discriminate].
    unfold Queue.get_nowait in Hget.
    destruct (Queue.items (queue_writer (sh s))) as [|d' rest] eqn:Hitems;
      [discriminate|].
    inversion Hget; subst d' q; clear Hget.
    rewrite writer_resume_eq in Hstep. cbv zeta in Hstep.
    cbn [queue queue_writer csvfile t_scanned t_saved
           Queue.unfinished_tasks Queue.items] in Hstep.
    rewrite Hunfw in Hstep. cbn [length] in Hstep.
    destruct Hfile as [(Hw & _)|(_ & Hf)]; [discriminate|].
    rewrite Hf in Hstep.
    inversion Hstep; subst s'; clear Hstep.
    right; right; right; right.
    exists d, rest, (fieldnames :: map row_of (consumed (trace s))).
    repeat split. exact Hf.
Qed.

(** The readings of the traces of the steps. *)
Lemma turn_trace_done (pre : list event) (divs : list division)
  (subs : list str) (u : str) :
  forallb quiet pre = true ->
  let evs := pre ++ map PutWriter divs ++ map Put subs
             ++ [Scanned; TaskDone u] in
  dequeued evs = [] /\ enqueued evs = subs /\ processed evs = [u]
  /\ emitted evs = divs /\ consumed evs = [].
Proof.
  intros Hq evs.
  destruct (turn_trace pre divs subs [Scanned; TaskDone u] Hq)
    as (E1 & E2 & E3 & E4 & E5).
  cbv zeta in *. fold evs in E1, E2, E3, E4, E5.
  cbn in E1, E2, E3, E4, E5. rewrite app_nil_r in E2, E4. tauto.
Qed.

End Steps.

(** ** What holds all along a run *)

Section MoreInvariants.

Context {L : Library}.

(** A property that every step keeps is kept along a schedule. *)
Lemma exec_keeps (net : network) (url : str) (ntasks : Z)
  (P : system -> Prop) :
  (forall s a s',
      reachable net url ntasks s -> P s ->
      permitted net s a = true -> step s a = Some s' -> P s') ->
  forall sched s s',
    reachable net url ntasks s -> P s ->
    exec net s sched = Some s' -> P s'.
Proof.
  intros Hstep sched. induction sched as [|a sched IH]; intros s s' Hreach HP Hexec.
  - simpl in Hexec. now inversion Hexec; subst.
  - simpl in Hexec.
    destruct (permitted net s a) eqn:Hp; [|discriminate].
    destruct (step s a) as [s1|] eqn:Hs; [|discriminate].
    apply (IH s1 s'); [|now apply (Hstep s a s1)|exact Hexec].
    apply (reachable_step _ _ _ _ _ _ Hreach Hp Hs).
Qed.


(** The levels of the divisions of a page. *)
Lemma analyze_page_levels (resp : response) (url : str) (s : shared)
  (pre : list event) (divs : list division) (subs : list str) :
  analyze_page resp url s = (s, pre, Ok (divs, subs)) ->
  Forall (fun d => In (level_of d) admin_types) divs.
Proof.
  destruct resp as [html|].
  2:{ rewrite analyze_page_error. intros E. inversion E. constructor. }
  destruct (contains marker html) eqn:Hm.
  - rewrite analyze_page_marked by exact Hm. intros E. inversion E. constructor.
  - rewrite analyze_page_text by exact Hm. unfold extract.
    destruct (select_level _ _) as [[t trs]|] eqn:Hsel.
    + intros E. inversion E as [[Hpre Hex]].
      destruct (extract_rows_ok _ _ _ _ _ Hex) as [Hlev _].
      apply select_level_some in Hsel.
      destruct Hsel as (before & after & Hlist & _).
      eapply Forall_impl; [|exact Hlev].
      intros d ->. rewrite Hlist. apply in_or_app. right. now left.
    + intros E. inversion E. constructor.
Qed.

Lemma emitted_levels (net : network) (url : str) (ntasks : Z) (s : system) :
  reachable net url ntasks s ->
  Forall (fun d => In (level_of d) admin_types) (emitted (trace s)).
Proof.
  revert s. apply reachable_ind; [constructor|].
  intros s a s' Hreach IH _ Hstep.
  destruct (reachable_step_cases _ _ _ _ _ _ Hreach Hstep)
    as [(i & u & rest & l1 & l2 & _ & _ & _ & ->)
       |[(i & resp & u & l1 & l2 & pre & e & _ & _ & _ & Hq & _ & ->)
        |[(i & resp & u & l1 & l2 & pre & divs & subs & n
           & _ & _ & _ & Hq & Ha & _ & ->)
         |[(_ & _ & _ & ->)
          |(d & rest & file & _ & _ & _ & _ & ->)]]]];
    cbn [trace]; rewrite emitted_app.
  - cbn. now rewrite app_nil_r.
  - destruct (quiet_silent _ Hq) as (_ & _ & _ & -> & _). now rewrite app_nil_r.
  - destruct (turn_trace_done pre divs subs u Hq) as (_ & _ & _ & E & _).
    cbv zeta in E. rewrite E. apply Forall_app. split; [exact IH|].
    exact (analyze_page_levels _ _ _ _ _ _ Ha).
  - cbn. now rewrite app_nil_r.
  - cbn. now rewrite app_nil_r.
Qed.

(** X6.  Every division a worker hands to the writer has one of the five
    levels; every row of the file has three fields, and the third field of
    a row after the first is one of the five levels. *)
Theorem file_rows_well_formed (net : network) (url : str) (ntasks : Z)
  (s : system) :
  reachable net url ntasks s ->
  Forall (fun d => In (level_of d) admin_types) (emitted (trace s))
  /\ (forall file,
        csvfile (sh s) = Some file -> Forall (fun r => length r = 3) file)
  /\ Forall
       (fun r => exists level,
            nth_error r 2 = Some level /\ In level admin_types)
       (data_rows s).
Proof.
  intros Hreach.
  pose proof (emitted_levels _ _ _ _ Hreach) as Hall.
  destruct (sink_invariant _ _ _ _ Hreach) as (_ & Hem & Hfile).
  assert (Hlev : Forall (fun d => In (level_of d) admin_types)
                   (consumed (trace s))).
  { rewrite Hem in Hall. apply Forall_app in Hall. exact (proj1 Hall). }
  split; [exact Hall|].
  unfold data_rows.
  destruct Hfile as [(_ & -> & _)|(_ & ->)].
  - split; [discriminate|constructor].
  - split.
    + intros file E. inversion E; subst file. constructor; [reflexivity|].
      apply Forall_forall. intros r Hin. apply in_map_iff in Hin.
      destruct Hin as ([[c n] l] & <- & _). reflexivity.
    + apply Forall_forall. intros r Hin. apply in_map_iff in Hin.
      destruct Hin as ([[c n] l] & <- & Hin).
      rewrite Forall_forall in Hlev. exists l. split; [reflexivity|].
      exact (Hlev _ Hin).
Qed.

(** X7.  The counter of scanned pages is the number of turns the workers
    have ended with [task_done()], retries included; the counter of saved
    divisions is the number of divisions the writer has taken from its
    queue, which is the number of rows of the file after the first. *)
Theorem progress_counters (net : network) (url : str) (ntasks : Z)
  (s : system) :
  reachable net url ntasks s ->
  t_scanned (sh s) = length (processed (trace s))
  /\ t_saved (sh s) = length (consumed (trace s))
  /\ t_saved (sh s) = length (data_rows s).
Proof.
  intros Hreach.
  assert (H : t_scanned (sh s) = length (processed (trace s))
              /\ t_saved (sh s) = length (consumed (trace s))).
  { revert s Hreach. apply reachable_ind; [split; reflexivity|].
    intros s a s' Hreach [IH1 IH2] _ Hstep.
    destruct (reachable_step_cases _ _ _ _ _ _ Hreach Hstep)
      as [(i & u & rest & l1 & l2 & _ & _ & _ & ->)
         |[(i & resp & u & l1 & l2 & pre & e & _ & _ & _ & Hq & _ & ->)
          |[(i & resp & u & l1 & l2 & pre & divs & subs & n
             & _ & _ & _ & Hq & _ & _ & ->)
           |[(_ & _ & _ & ->)
            |(d & rest & file & _ & _ & _ & _ & ->)]]]];
      cbn [trace sh t_scanned t_saved turn_state];
      rewrite processed_app, consumed_app, !length_app.
    - cbn. lia.
    - destruct (quiet_silent _ Hq) as (_ & _ & -> & _ & ->). cbn. lia.
    - destruct (turn_trace_done pre divs subs u Hq) as (_ & _ & E3 & _ & E5).
      cbv zeta in E3, E5. rewrite E3, E5. cbn. lia.
    - cbn. lia.
    - cbn. lia. }
  destruct H as [H1 H2]. split; [exact H1|]. split; [exact H2|].
  destruct (sink_invariant _ _ _ _ Hreach) as (_ & _ & Hfile).
  unfold data_rows. rewrite H2.
  destruct Hfile as [(_ & -> & ->)|(_ & ->)]; [reflexivity|].
  now rewrite length_map.
Qed.


End MoreInvariants.

(** ** What a run can and cannot do *)

Section MoreRunsOfTheLoop.

Context {L : Library}.

(** X8.  The pages leave the queue in the order in which they were put on
    it: the pages put so far are the pages taken so far followed by the
    pages on the queue, so the k-th page taken is the k-th page put. *)
Theorem pages_first_in_first_out (net : network) (url : str) (ntasks : Z)
  (s : system) :
  reachable net url ntasks s ->
  enqueued (trace s) = dequeued (trace s) ++ Queue.items (queue (sh s))
  /\ forall k u,
      nth_error (dequeued (trace s)) k = Some u ->
      nth_error (enqueued (trace s)) k = Some u.
Proof.
  intros Hreach.
  destruct (frontier_invariant _ _ _ _ Hreach) as (_ & Hq & _).
  split; [exact Hq|].
  intros k u Hk. rewrite Hq, nth_error_app1; [exact Hk|].
  apply nth_error_Some. congruence.
Qed.

Lemma pending_joined (net : network) (url : str) (ntasks : Z) (s : system)
  (u : str) :
  reachable net url ntasks s -> In u (pending s) -> queue_joined s = false.
Proof.
  intros Hreach Hin.
  destruct (frontier_invariant _ _ _ _ Hreach) as (Hunf & _ & _).
  unfold queue_joined, Queue.joined. apply Nat.eqb_neq.
  unfold pending in Hin.
  assert (0 < length (Queue.items (queue (sh s)) ++ in_flight (workers s))).
  { destruct (Queue.items (queue (sh s)) ++ in_flight (workers s));
      [destruct Hin|simpl; lia]. }
  rewrite length_app in H. lia.
Qed.

(** A page for which the network has failures only stays pending. *)
Lemma retried_step (net : network) (url : str) (ntasks : Z) (u : str) :
  always_retried net u ->
  forall s a s',
    reachable net url ntasks s -> In u (pending s) ->
    permitted net s a = true -> step s a = Some s' -> In u (pending s').
Proof.
  intros Hnet s a s' Hreach Hin Hperm Hstep. unfold pending in *.
  destruct (reachable_step_cases _ _ _ _ _ _ Hreach Hstep)
    as [(i & v & rest & l1 & l2 & _ & Hitems & Hws & ->)
       |[(i & resp & v & l1 & l2 & pre & e & -> & Hi & Hws & _ & Ha & ->)
        |[(i & resp & v & l1 & l2 & pre & divs & subs & n
           & -> & Hi & Hws & _ & Ha & _ & ->)
         |[(_ & _ & _ & ->)
          |(d & rest & file & _ & _ & _ & _ & ->)]]]];
    cbn [sh workers queue turn_state Queue.items]; try exact Hin;
    rewrite Hws, in_flight_app in Hin; rewrite in_flight_app;
    cbn [in_flight flat_map app] in Hin |- *;
    rewrite ?Hitems in Hin; rewrite !in_app_iff in *; cbn [In] in *.
  - tauto.
  - destruct (list_eq_dec N.eq_dec v u) as [->|Hne]; [|intuition congruence].
    exfalso. cbn [permitted] in Hperm. rewrite Hi in Hperm.
    destruct (Hnet _ Hperm) as [->|(html & -> & Hm)].
    + rewrite analyze_page_error in Ha. discriminate.
    + rewrite analyze_page_marked in Ha by exact Hm. discriminate.
  - destruct (list_eq_dec N.eq_dec v u) as [->|Hne]; [|intuition congruence].
    cbn [permitted] in Hperm. rewrite Hi in Hperm.
    assert (Hsubs : subs = [u]).
    { destruct (Hnet _ Hperm) as [->|(html & -> & Hm)].
      - rewrite analyze_page_error in Ha. now inversion Ha.
      - rewrite analyze_page_marked in Ha by exact Hm. now inversion Ha. }
    subst subs. cbn [In]. tauto.
Qed.

(** X9.  A page for which every request fails or gets a body with the
    marker is retried for ever: once it is on the queue or in the hands of
    a worker it stays so, whatever the run does, and [queue.join()] never
    goes through.  So it is for the top page from the start. *)
Theorem retried_forever (net : network) (url : str) (ntasks : Z) (u : str)
  (s s' : system) (sched : list action) :
  always_retried net u ->
  reachable net url ntasks s ->
  In u (pending s) ->
  exec net s sched = Some s' ->
  In u (pending s') /\ queue_joined s' = false
  /\ In url (pending (run_queue url ntasks)).
Proof.
  intros Hnet Hreach Hin Hexec.
  assert (Hin' : In u (pending s')).
  { exact (exec_keeps net url ntasks (fun x => In u (pending x))
             (retried_step net url ntasks u Hnet) sched s s' Hreach Hin Hexec). }
  split; [exact Hin'|]. split.
  - apply (pending_joined net url ntasks s' u); [|exact Hin'].
    exact (exec_reachable _ _ _ _ _ _ Hreach Hexec).
  - unfold pending, run_queue. cbn. now left.
Qed.

(** X10.  A worker that an exception has ended stays ended along the run,
    and the page it held is never marked done: from then on
    [queue.join()] never goes through. *)
Theorem failed_worker_blocks_join (net : network) (url : str) (ntasks : Z)
  (s s' : system) (sched : list action) :
  reachable net url ntasks s ->
  failed (workers s) <> [] ->
  exec net s sched = Some s' ->
  length (failed (workers s)) <= length (failed (workers s'))
  /\ queue_joined s' = false.
Proof.
  intros Hreach Hfail Hexec.
  assert (Hmono : length (failed (workers s)) <= length (failed (workers s'))).
  { apply (exec_keeps net url ntasks
             (fun x => length (failed (workers s)) <= length (failed (workers x))))
      with (sched := sched) (s := s); [|exact Hreach|lia|exact Hexec].
    intros x a x' Hx IH _ Hstep.
    destruct (reachable_step_cases _ _ _ _ _ _ Hx Hstep)
      as [(i & v & rest & l1 & l2 & _ & _ & Hws & ->)
         |[(i & resp & v & l1 & l2 & pre & e & _ & _ & Hws & _ & _ & ->)
          |[(i & resp & v & l1 & l2 & pre & divs & subs & n
             & _ & _ & Hws & _ & _ & _ & ->)
           |[(_ & _ & _ & ->)
            |(d & rest & file & _ & _ & _ & _ & ->)]]]];
      cbn [workers]; try exact IH;
      rewrite Hws, failed_app, length_app in IH;
      rewrite failed_app, length_app; cbn [failed flat_map app length] in *; lia. }
  split; [exact Hmono|].
  pose proof (exec_reachable _ _ _ _ _ _ Hreach Hexec) as Hreach'.
  destruct (frontier_invariant _ _ _ _ Hreach') as (Hunf & _ & _).
  unfold queue_joined, Queue.joined. apply Nat.eqb_neq.
  destruct (failed (workers s)) eqn:E; [contradiction|]. cbn [length] in Hmono.
  lia.
Qed.

(** X11.  With no worker, [ntasks] being zero or negative, nothing is ever
    taken from the queue: the top page stays on it, [queue.join()] never
    goes through, and the file, if the writer has opened it, has its first
    row only. *)
Theorem no_worker_no_crawl (net : network) (url : str) (ntasks : Z)
  (s : system) :
  (ntasks <= 0)%Z ->
  reachable net url ntasks s ->
  workers s = []
  /\ queue (sh s) = Queue.Build [url] 1
  /\ queue_writer (sh s) = Queue.empty
  /\ queue_joined s = false
  /\ (csvfile (sh s) = None \/ csvfile (sh s) = Some [fieldnames]).
Proof.
  intros Hn.
  assert (H0 : Z.to_nat ntasks = 0) by lia.
  revert s. apply reachable_ind.
  - unfold run_queue. rewrite H0. cbn. repeat split. now left.
  - intros s a s' Hreach (Hws & Hq & Hqw & Hj & Hfile) _ Hstep.
    destruct (reachable_step_cases _ _ _ _ _ _ Hreach Hstep)
      as [(i & v & rest & l1 & l2 & _ & _ & Hws' & ->)
         |[(i & resp & v & l1 & l2 & pre & e & _ & _ & Hws' & _ & _ & ->)
          |[(i & resp & v & l1 & l2 & pre & divs & subs & n
             & _ & _ & Hws' & _ & _ & _ & ->)
           |[(_ & _ & _ & ->)
            |(d & rest & file & _ & _ & Hitems & _ & ->)]]]];
      try (rewrite Hws in Hws'; now destruct l1).
    + cbn [sh workers queue queue_writer csvfile].
      repeat split; try assumption. now right.
    + rewrite Hqw in Hitems. discriminate.
Qed.

(** X13.  The writer only adds rows at the end of its file: along a run,
    what the file holds at one point is the beginning of what it holds
    later. *)
Theorem file_append_only (net : network) (url : str) (ntasks : Z)
  (s s' : system) (sched : list action) (file : list (list str)) :
  reachable net url ntasks s ->
  csvfile (sh s) = Some file ->
  exec net s sched = Some s' ->
  exists more, csvfile (sh s') = Some (file ++ more).
Proof.
  intros Hreach Hfile Hexec.
  apply (exec_keeps net url ntasks
           (fun x => exists more, csvfile (sh x) = Some (file ++ more)))
    with (sched := sched) (s := s); [|exact Hreach| |exact Hexec].
  2:{ exists []. now rewrite app_nil_r. }
  intros x a x' Hx (more & IH) _ Hstep.
  destruct (reachable_step_cases _ _ _ _ _ _ Hx Hstep)
    as [(i & v & rest & l1 & l2 & _ & _ & _ & ->)
       |[(i & resp & v & l1 & l2 & pre & e & _ & _ & _ & _ & _ & ->)
        |[(i & resp & v & l1 & l2 & pre & divs & subs & n
           & _ & _ & _ & _ & _ & _ & ->)
         |[(_ & _ & Hnone & ->)
          |(d & rest & file' & _ & _ & _ & Hf & ->)]]]];
    cbn [sh csvfile turn_state].
  - now exists more.
  - now exists more.
  - now exists more.
  - congruence.
  - rewrite IH in Hf. inversion Hf; subst file'.
    exists (more ++ [row_of d]). now rewrite app_assoc.
Qed.

End MoreRunsOfTheLoop.

(** ** The whole crawl of a site that is a tree *)

Section WholeCrawl.

Import Instances.Lists.

Context {L : Library}.

Lemma analyze_page_divisions (web : str -> response) (u : str) (s : shared)
  (pre : list event) (divs : list division) (subs : list str) :
  analyze_page (web u) u s = (s, pre, Ok (divs, subs)) ->
  divs = page_divisions web u.
Proof.
  unfold page_divisions. destruct (web u) as [html|].
  2:{ rewrite analyze_page_error. intros E. now inversion E. }
  destruct (contains marker html) eqn:Hm.
  - rewrite analyze_page_marked by exact Hm. intros E. now inversion E.
  - rewrite analyze_page_text by exact Hm. intros E. inversion E as [[Hpre Hex]].
    now rewrite Hex.
Qed.

(** When the network serves [web], the divisions handed to the writer are
    those of the pages that are done, page after page. *)
Lemma emitted_pages (web : str -> response) (url : str) (ntasks : Z)
  (s : system) :
  reachable (served web) url ntasks s ->
  emitted (trace s) = flat_map (page_divisions web) (processed (trace s)).
Proof.
  revert s. apply reachable_ind; [reflexivity|].
  intros s a s' Hreach IH Hperm Hstep.
  destruct (reachable_step_cases _ _ _ _ _ _ Hreach Hstep)
    as [(i & u & rest & l1 & l2 & _ & _ & _ & ->)
       |[(i & resp & u & l1 & l2 & pre & e & _ & _ & _ & Hq & _ & ->)
        |[(i & resp & u & l1 & l2 & pre & divs & subs & n
           & -> & Hi & _ & Hq & Ha & _ & ->)
         |[(_ & _ & _ & ->)
          |(d & rest & file & _ & _ & _ & _ & ->)]]]];
    cbn [trace]; rewrite emitted_app, processed_app, flat_map_app, <- IH.
  - cbn. now rewrite !app_nil_r.
  - destruct (quiet_silent _ Hq) as (_ & _ & -> & -> & _). reflexivity.
  - cbn [permitted] in Hperm. rewrite Hi in Hperm.
    apply response_eqb_eq in Hperm. subst resp.
    destruct (turn_trace_done pre divs subs u Hq) as (_ & _ & E3 & E4 & _).
    cbv zeta in E3, E4. rewrite E3, E4. cbn [flat_map]. rewrite app_nil_r.
    now rewrite (analyze_page_divisions _ _ _ _ _ _ Ha).
  - cbn. now rewrite !app_nil_r.
  - cbn. now rewrite !app_nil_r.
Qed.

(** X15.  On a site that is a finite tree, served without failure, when
    both joins of [run_queue] go through the rows of the file after the
    first are the rows of the divisions of all the pages of the tree, each
    page counted once, in some order; and the file is there with its first
    row as soon as a page has a division. *)
Theorem crawl_output (web : str -> response) (T : tree) (ntasks : Z)
  (s : system) :
  site web T = true ->
  reachable (served web) (root T) ntasks s ->
  queue_joined s = true ->
  queue_writer_joined s = true ->
  Permutation (data_rows s)
    (map row_of (flat_map (page_divisions web) (urls T)))
  /\ (flat_map (page_divisions web) (urls T) <> [] ->
      csvfile (sh s) = Some (fieldnames :: data_rows s)).
Proof.
  intros Hsite Hreach Hj Hjw.
  destruct (frontier_invariant _ _ _ _ Hreach) as (Hunf & _ & _).
  destruct (tree_invariant web T ntasks s Hsite Hreach)
    as (F & _ & Hroots & Hurls & Hfail & _).
  destruct (sink_invariant _ _ _ _ Hreach) as (Hunfw & Hem & Hfile).
  pose proof (emitted_pages web _ _ _ Hreach) as Hpages.
  (* nothing is left on either queue *)
  unfold queue_joined in Hj. apply joined_zero in Hj.
  unfold queue_writer_joined in Hjw. apply joined_zero in Hjw.
  rewrite Hjw in Hunfw. symmetry in Hunfw. apply length_zero_iff_nil in Hunfw.
  rewrite Hunfw, app_nil_r in Hem.
  assert (HF : F = []).
  { apply Permutation_length in Hroots.
    rewrite length_map, length_app in Hroots.
    apply length_zero_iff_nil. lia. }
  subst F. cbn in Hurls. rewrite app_nil_r in Hurls.
  assert (Hall : Permutation (consumed (trace s))
                   (flat_map (page_divisions web) (urls T))).
  { rewrite <- Hem, Hpages. apply Permutation_flat_map.
    now apply Permutation_sym. }
  unfold data_rows.
  destruct Hfile as [(_ & Hnone & Hc)|(_ & Hsome)].
  - rewrite Hnone. rewrite Hc in Hall. split.
    + apply Permutation_nil in Hall. rewrite Hall. constructor.
    + intros Hne. apply Permutation_nil in Hall. congruence.
  - rewrite Hsome. split; [now apply Permutation_map|reflexivity].
Qed.

Lemma count_snoc (f : action -> bool) (sched : list action) (a : action) :
  count f (sched ++ [a]) = count f sched + (if f a then 1 else 0).
Proof.
  unfold count. rewrite filter_app, length_app. cbn [filter].
  now destruct (f a).
Qed.

(** The steps of a schedule, counted on the trace and on the tasks. *)
Lemma schedule_counts (net : network) (url : str) (ntasks : Z)
  (sched : list action) :
  forall s,
    exec net (run_queue url ntasks) sched = Some s ->
    count is_dequeue sched = length (dequeued (trace s))
    /\ count is_respond sched
       = length (processed (trace s)) + length (failed (workers s))
    /\ count is_sink_row sched = length (consumed (trace s))
    /\ count is_sink_start sched
       = match sink s with Created => 0 | _ => 1 end.
Proof.
  induction sched as [|a sched IH] using rev_ind; intros s Hexec.
  - simpl in Hexec. inversion Hexec; subst s. unfold run_queue.
    cbn [trace workers sink].
    destruct (idle_pool (Z.to_nat ntasks)) as [_ ->]. repeat split.
  - rewrite exec_app in Hexec.
    destruct (exec net (run_queue url ntasks) sched) as [s0|] eqn:H0;
      [|discriminate].
    destruct (IH s0 eq_refl) as (C1 & C2 & C3 & C4).
    assert (Hreach : reachable net url ntasks s0) by now exists sched.
    simpl in Hexec.
    destruct (permitted net s0 a); [|discriminate].
    destruct (step s0 a) as [s1|] eqn:Hstep; [|discriminate].
    inversion Hexec; subst s1; clear Hexec.
    rewrite !count_snoc, C1, C2, C3, C4.
    destruct (reachable_step_cases _ _ _ _ _ _ Hreach Hstep)
      as [(i & u & rest & l1 & l2 & -> & _ & Hws & ->)
         |[(i & resp & u & l1 & l2 & pre & e & -> & _ & Hws & Hq & _ & ->)
          |[(i & resp & u & l1 & l2 & pre & divs & subs & n
             & -> & _ & Hws & Hq & _ & _ & ->)
           |[(-> & Hsink & _ & ->)
            |(d & rest & file & -> & Hsink & _ & _ & ->)]]]];
      cbn [trace workers sink is_dequeue is_respond is_sink_row is_sink_start];
      rewrite dequeued_app, processed_app, consumed_app, !length_app;
      try rewrite Hws; rewrite ?failed_app, ?length_app;
      cbn [failed flat_map app length].
    + cbn. repeat split; lia.
    + destruct (quiet_silent _ Hq) as (-> & _ & -> & _ & ->).
      cbn. repeat split; lia.
    + destruct (turn_trace_done pre divs subs u Hq) as (E1 & _ & E3 & _ & E5).
      cbv zeta in E1, E3, E5. rewrite E1, E3, E5. cbn. repeat split; lia.
    + rewrite Hsink. cbn. repeat split; lia.
    + rewrite Hsink. cbn. repeat split; lia.
Qed.

Lemma schedule_length (sched : list action) :
  length sched
  = worker_steps sched + count is_sink_start sched + count is_sink_row sched.
Proof.
  unfold worker_steps, count.
  induction sched as [|a sched IH]; [reflexivity|].
  destruct a; cbn [filter is_dequeue is_respond is_sink_start is_sink_row length];
    lia.
Qed.

(** X14.  On a site that is a finite tree, served without failure, a run
    takes two steps of a worker for each page, one to take it from the
    queue and one to end its turn, and [queue.join()] goes through exactly
    when all these steps are taken; the writer takes one step to open the
    file and one for each division.  So no run is longer than twice the
    number of pages, plus one, plus the number of divisions of the
    site. *)
Theorem run_length (web : str -> response) (T : tree) (ntasks : Z)
  (sched : list action) (s : system) :
  site web T = true ->
  exec (served web) (run_queue (root T) ntasks) sched = Some s ->
  worker_steps sched <= 2 * length (urls T)
  /\ (queue_joined s = true <-> worker_steps sched = 2 * length (urls T))
  /\ length sched
     <= 2 * length (urls T) + 1
        + length (flat_map (page_divisions web) (urls T)).
Proof.
  intros Hsite Hexec.
  assert (Hreach : reachable (served web) (root T) ntasks s)
    by now exists sched.
  destruct (schedule_counts _ _ _ _ _ Hexec) as (C1 & C2 & C3 & C4).
  destruct (tree_counts web T ntasks s Hsite Hreach)
    as (Hfail & Hunf & Hle & Hdeq).
  rewrite Hfail in C2. cbn [length] in C2.
  assert (Hsteps : worker_steps sched
                   = 2 * length (processed (trace s))
                     + length (in_flight (workers s)))
    by (unfold worker_steps; lia).
  destruct (tree_invariant web T ntasks s Hsite Hreach)
    as (F & _ & Hroots & Hurls & _ & _).
  assert (Hk : length (urls T)
               = length (processed (trace s)) + length (flat_map urls F)).
  { apply Permutation_length in Hurls. now rewrite length_app in Hurls. }
  assert (HF : length F
               = length (Queue.items (queue (sh s)))
                 + length (in_flight (workers s))).
  { apply Permutation_length in Hroots.
    now rewrite length_map, length_app in Hroots. }
  pose proof (forest_urls_length F) as HFk.
  assert (H0 : length F = 0 -> length (flat_map urls F) = 0).
  { intros H. apply length_zero_iff_nil in H. now subst F. }
  split; [lia|]. split.
  - unfold queue_joined. rewrite joined_zero, Hunf. lia.
  - rewrite schedule_length.
    (* the divisions taken by the writer are divisions of pages of the tree *)
    destruct (sink_invariant _ _ _ _ Hreach) as (_ & Hem & _).
    pose proof (emitted_pages web _ _ _ Hreach) as Hpages.
    assert (Hrows : count is_sink_row sched
                    <= length (flat_map (page_divisions web) (urls T))).
    { rewrite C3.
      apply (Permutation_flat_map (page_divisions web)) in Hurls.
      apply Permutation_length in Hurls.
      rewrite flat_map_app, length_app, <- Hpages, Hem, length_app in Hurls.
      lia. }
    assert (Hstart : count is_sink_start sched <= 1)
      by (rewrite C4; destruct (sink s); lia).
    lia.
Qed.

End WholeCrawl.

(** ** [main] and the top address *)

Section Main.

Lemma lit_inj (a b : String.string) : lit a = lit b -> a = b.
Proof.
  unfold lit. revert b.
  induction a as [|x a IH]; intros [|y b]; simpl; try discriminate;
    [reflexivity|].
  intros E. inversion E as [[Hx Hrest]].
  apply (f_equal Ascii.ascii_of_N) in Hx.
  rewrite !Ascii.ascii_N_embedding in Hx. subst y.
  now rewrite (IH b Hrest).
Qed.

Lemma str_of_int_inj (y y' : Z) : str_of_int y = str_of_int y' -> y = y'.
Proof.
  unfold str_of_int. intros E. apply lit_inj in E.
  apply (f_equal DecimalString.NilEmpty.int_of_string) in E.
  rewrite !DecimalString.NilEmpty.isi in E. inversion E as [E'].
  apply (f_equal Z.of_int) in E'. now rewrite !DecimalZ.of_to in E'.
Qed.

(** X16.  The address [main] starts the crawl from is absolute, ends with
    a slash and tells the year: two years give two addresses.  [main]
    puts this address, and nothing else, on the queue. *)
Theorem top_url_of_year (args : Args.t) :
  startswith #"http://" (TOP_URL (Args.year args)) = true
  /\ last (TOP_URL (Args.year args)) 0%N = chr "/"
  /\ (forall year, TOP_URL (Args.year args) = TOP_URL year ->
                   Args.year args = year)
  /\ pending (main args) = [TOP_URL (Args.year args)]
  /\ trace (main args) = [Put (TOP_URL (Args.year args))].
Proof.
  split; [reflexivity|]. split; [|split; [|split]].
  - unfold TOP_URL. rewrite app_assoc. apply last_last.
  - intros year E. unfold TOP_URL in E.
    apply app_inv_head in E. apply app_inv_tail in E.
    now apply str_of_int_inj.
  - unfold pending, main, run_queue. cbn [sh workers queue Queue.items].
    destruct (idle_pool (Z.to_nat (Args.ntasks args))) as [-> _].
    reflexivity.
  - reflexivity.
Qed.

End Main.

(** * The further properties on the examples *)

Section MoreRuns.

Import Example.

(** The cell of Beijing on the top page, with its link as it is there and
    with a link that goes through a directory. *)
Lemma code_of_link_witness :
  province_td #"province" ([], []) beijing_cell
  = Ok ([(#"110000000000", #"Beijing", #"province")], [#"11.html"])
  /\ province_td #"province" ([], []) (td [a "2023/11.html" "Beijing"])
     = Ok ([(#"110000000000", #"Beijing", #"province")],
           [#"2023/11.html"]).
Proof.
  assert (Hname1 : ~ In (chr "/") #"11")
    by (vm_compute; intuition discriminate).
  assert (Hname2 : ~ In (chr ".") #"11")
    by (vm_compute; intuition discriminate).
  assert (Hext : ~ In (chr "/") #"html")
    by (vm_compute; intuition discriminate).
  split.
  - destruct (code_of_link #"province" beijing_cell beijing_link
                [] #"11" #"html" [] [] eq_refl Hname1 Hname2 Hext)
      as [_ H].
    exact (H eq_refl).
  - destruct (code_of_link #"province"
                (td [a "2023/11.html" "Beijing"]) (a "2023/11.html" "Beijing")
                #"2023" #"11" #"html" [] [] eq_refl Hname1 Hname2 Hext)
      as [H _].
    exact (H eq_refl).
Defined.

(** A name with white space around it and a division with none. *)
Lemma writer_keeps_text_witness :
  csvfile open_file = Some [fieldnames]
  /\ Queue.unfinished_tasks (queue_writer open_file) <> 0
  /\ trimmed (name_of donghuamen) = false
  /\ (exists s' n,
         writer_resume donghuamen open_file
         = (s', [WriteRow [#"110101001000"; n; #"town"];
                 TaskDoneWriter; Saved], Ok tt)
         /\ exists pre post,
             #" Donghuamen " = pre ++ n ++ post
             /\ blank pre = true /\ blank post = true)
  /\ (exists s',
         writer_resume jingshan open_file
         = (s', [WriteRow [#"110101002000"; #"Jingshan"; #"town"];
                 TaskDoneWriter; Saved], Ok tt)).
Proof.
  assert (Hfile : csvfile open_file = Some [fieldnames]) by reflexivity.
  assert (Hunf : Queue.unfinished_tasks (queue_writer open_file) <> 0)
    by (vm_compute; discriminate).
  split; [exact Hfile|]. split; [exact Hunf|].
  split; [vm_compute; reflexivity|]. split.
  - destruct (writer_keeps_text donghuamen open_file [fieldnames]
                Hfile Hunf)
      as (s' & c & n & Hw & _ & _ & Hn & Hc & _).
    exists s', n. rewrite Hw.
    rewrite (Hc eq_refl). split; [reflexivity|exact Hn].
  - destruct (writer_keeps_text jingshan open_file [fieldnames]
                Hfile Hunf)
      as (s' & c & n & Hw & _ & _ & _ & Hc & Hn).
    exists s'. rewrite Hw.
    rewrite (Hc eq_refl), (Hn eq_refl). reflexivity.
Defined.

(** The top page with the marker after it, and the top page as it is. *)
Lemma rate_limited_iff_witness :
  @analyze_page library (Text #"<top> jsjiami.com.v6") top_url open_file
  = (open_file, [LogWarning top_url; Sleep 60], Ok ([], [top_url]))
  /\ @analyze_page library (Text #"<top>") top_url open_file
     = (open_file, [], @extract library (bs "<top>") top_url).
Proof.
  split.
  - apply (@rate_limited_iff library #"<top> jsjiami.com.v6" top_url
             open_file).
    exists #"<top> ", []. reflexivity.
  - apply (@rate_limited_iff library #"<top>" top_url open_file).
    intro H.
    apply (proj2 (contains_iff marker #"<top>")) in H.
    vm_compute in H. discriminate.
Defined.


(** The page of the towns gives one link for two divisions, the top page
    two links for two divisions. *)
Lemma links_at_most_divisions_witness :
  @extract library (bs "<towns>") top_url
  = Ok ([donghuamen; jingshan], [page "01/110101001.html"])
  /\ length [page "01/110101001.html"] <= length [donghuamen; jingshan]
  /\ @extract library (bs "<top>") top_url
     = Ok ([(#"110000000000", #"Beijing", #"province");
            (#"120000000000", #"Tianjin", #"province")],
           [page "11.html"; page "12.html"])
  /\ rows (bs "<top>") #"province" <> []
  /\ length [page "11.html"; page "12.html"]
     = length [(#"110000000000", #"Beijing", #"province");
               (#"120000000000", #"Tianjin", #"province")].
Proof.
  assert (Htowns : @extract library (bs "<towns>") top_url
                   = Ok ([donghuamen; jingshan], [page "01/110101001.html"]))
    by (vm_compute; reflexivity).
  assert (Htop : @extract library (bs "<top>") top_url
                 = Ok ([(#"110000000000", #"Beijing", #"province");
                        (#"120000000000", #"Tianjin", #"province")],
                       [page "11.html"; page "12.html"]))
    by (vm_compute; reflexivity).
  assert (Hrows : rows (bs "<top>") #"province" <> [])
    by (vm_compute; discriminate).
  split; [exact Htowns|].
  split;
    [exact (proj1 (@links_at_most_divisions library _ _ _ _ Htowns))|].
  split; [exact Htop|]. split; [exact Hrows|].
  exact (proj2 (@links_at_most_divisions library _ _ _ _ Htop) Hrows).
Defined.

(** The file at the end of the run on the site of four pages. *)
Lemma file_rows_well_formed_witness :
  @reachable library (served web) top_url 2 finished
  /\ Forall (fun d => In (level_of d) admin_types) (emitted (trace finished))
  /\ (forall file,
         csvfile (sh finished) = Some file ->
         Forall (fun r => length r = 3) file)
  /\ Forall
       (fun r => exists level,
            nth_error r 2 = Some level /\ In level admin_types)
       (data_rows finished)
  /\ length (data_rows finished) = 3.
Proof.
  split; [exact finished_reachable|].
  destruct (@file_rows_well_formed library (served web) top_url 2 finished
              finished_reachable) as (Hlevels & Hfile & Hrows).
  split; [exact Hlevels|]. split; [exact Hfile|]. split; [exact Hrows|].
  vm_compute. reflexivity.
Defined.

(** Four pages scanned and three divisions saved at the end of that run. *)
Lemma progress_counters_witness :
  @reachable library (served web) top_url 2 finished
  /\ t_scanned (sh finished) = length (processed (trace finished))
  /\ t_saved (sh finished) = length (consumed (trace finished))
  /\ t_saved (sh finished) = length (data_rows finished)
  /\ t_scanned (sh finished) = 4 /\ t_saved (sh finished) = 3.
Proof.
  split; [exact finished_reachable|].
  destruct (@progress_counters library (served web) top_url 2 finished
              finished_reachable) as (Hscanned & Hsaved & Hrows).
  split; [exact Hscanned|]. split; [exact Hsaved|]. split; [exact Hrows|].
  split; vm_compute; reflexivity.
Defined.

Lemma crashed_reachable :
  @reachable library anything top_url 2 (run_on anything 2 crash).
Proof. exists crash. vm_compute. reflexivity. Defined.


(** The four pages of the site leave the queue in the order in which they
    were put on it. *)
Lemma pages_first_in_first_out_witness :
  @reachable library (served web) top_url 2 finished
  /\ enqueued (trace finished)
     = dequeued (trace finished) ++ Queue.items (queue (sh finished))
  /\ dequeued (trace finished)
     = [top_url; page "11.html"; page "12.html"; page "11/1101.html"]
  /\ nth_error (enqueued (trace finished)) 2 = Some (page "12.html").
Proof.
  split; [exact finished_reachable|].
  destruct (@pages_first_in_first_out library (served web) top_url 2
              finished finished_reachable) as (Hqueue & Hnth).
  split; [exact Hqueue|]. split; [vm_compute; reflexivity|].
  apply Hnth. vm_compute. reflexivity.
Defined.

(** On the network that is down both workers have tried the top page, and
    it is on the queue again. *)
Lemma retried_forever_witness :
  always_retried down top_url
  /\ @reachable library down top_url 2 (run_queue top_url 2)
  /\ In top_url (pending (run_queue top_url 2))
  /\ @exec library down (run_queue top_url 2) retries
     = Some (run_on down 2 retries)
  /\ In top_url (pending (run_on down 2 retries))
  /\ queue_joined (run_on down 2 retries) = false.
Proof.
  assert (Hdown : always_retried down top_url).
  { intros [html|] H; [discriminate H|left; reflexivity]. }
  assert (Hreach : @reachable library down top_url 2 (run_queue top_url 2))
    by (exists []; reflexivity).
  assert (Hin : In top_url (pending (run_queue top_url 2)))
    by (left; reflexivity).
  assert (Hexec : @exec library down (run_queue top_url 2) retries
                  = Some (run_on down 2 retries))
    by (vm_compute; reflexivity).
  split; [exact Hdown|]. split; [exact Hreach|]. split; [exact Hin|].
  split; [exact Hexec|].
  destruct (@retried_forever library down top_url 2 top_url
              (run_queue top_url 2) (run_on down 2 retries) retries
              Hdown Hreach Hin Hexec) as (Hpending & Hjoin & _).
  split; [exact Hpending|exact Hjoin].
Defined.

(** After the crash the other worker and the writer go on, all the other
    pages are scanned and all the rows written, and the join still does not
    go through. *)
Lemma failed_worker_blocks_join_witness :
  @reachable library anything top_url 2 (run_on anything 2 crash)
  /\ failed (workers (run_on anything 2 crash)) <> []
  /\ @exec library anything (run_on anything 2 crash) after_crash
     = Some (run_on anything 2 (crash ++ after_crash))
  /\ Queue.items (queue (sh (run_on anything 2 (crash ++ after_crash)))) = []
  /\ queue_writer_joined (run_on anything 2 (crash ++ after_crash)) = true
  /\ length (failed (workers (run_on anything 2 crash)))
     <= length (failed (workers (run_on anything 2 (crash ++ after_crash))))
  /\ queue_joined (run_on anything 2 (crash ++ after_crash)) = false.
Proof.
  assert (Hfailed : failed (workers (run_on anything 2 crash)) <> [])
    by (vm_compute; discriminate).
  assert (Hexec : @exec library anything (run_on anything 2 crash)
                    after_crash
                  = Some (run_on anything 2 (crash ++ after_crash)))
    by (vm_compute; reflexivity).
  split; [exact crashed_reachable|]. split; [exact Hfailed|].
  split; [exact Hexec|].
  split; [vm_compute; reflexivity|]. split; [vm_compute; reflexivity|].
  exact (@failed_worker_blocks_join library anything top_url 2
           (run_on anything 2 crash)
           (run_on anything 2 (crash ++ after_crash)) after_crash
           crashed_reachable Hfailed Hexec).
Defined.

(** With [ntasks] zero the writer opens the file and nothing else can be
    done. *)
Lemma no_worker_no_crawl_witness :
  (0 <= 0)%Z
  /\ @reachable library anything top_url 0 (run_on anything 0 [SinkStart])
  /\ workers (run_on anything 0 [SinkStart]) = []
  /\ queue (sh (run_on anything 0 [SinkStart])) = Queue.Build [top_url] 1
  /\ queue_joined (run_on anything 0 [SinkStart]) = false
  /\ csvfile (sh (run_on anything 0 [SinkStart])) = Some [fieldnames].
Proof.
  assert (Hle : (0 <= 0)%Z) by lia.
  assert (Hreach : @reachable library anything top_url 0
                     (run_on anything 0 [SinkStart]))
    by (exists [SinkStart]; vm_compute; reflexivity).
  split; [exact Hle|]. split; [exact Hreach|].
  destruct (@no_worker_no_crawl library anything top_url 0
              (run_on anything 0 [SinkStart]) Hle Hreach)
    as (Hworkers & Hqueue & _ & Hjoin & _).
  split; [exact Hworkers|]. split; [exact Hqueue|]. split; [exact Hjoin|].
  vm_compute. reflexivity.
Defined.

Lemma midway_reachable :
  @reachable library (served web) top_url 2 midway.
Proof. exists schedule_start. vm_compute. reflexivity. Defined.

(** The file when the writer has written the row of Beijing, and at the
    end of the run. *)
Lemma file_append_only_witness :
  @reachable library (served web) top_url 2 midway
  /\ csvfile (sh midway)
     = Some [fieldnames; [#"110000000000"; #"Beijing"; #"province"]]
  /\ @exec library (served web) midway schedule_end = Some finished
  /\ exists more,
      csvfile (sh finished)
      = Some ([fieldnames; [#"110000000000"; #"Beijing"; #"province"]]
                ++ more).
Proof.
  assert (Hfile : csvfile (sh midway)
                  = Some [fieldnames;
                          [#"110000000000"; #"Beijing"; #"province"]])
    by (vm_compute; reflexivity).
  assert (Hexec : @exec library (served web) midway schedule_end
                  = Some finished)
    by (vm_compute; reflexivity).
  split; [exact midway_reachable|]. split; [exact Hfile|].
  split; [exact Hexec|].
  exact (@file_append_only library (served web) top_url 2 midway finished
           schedule_end _ midway_reachable Hfile Hexec).
Defined.

(** The run of twelve steps on the site of four pages: eight steps of the
    workers, one of the writer to open the file and three for the rows. *)
Lemma run_length_witness :
  @site library web site_tree = true
  /\ @exec library (served web) (run_queue (root site_tree) 2) schedule
     = Some finished
  /\ worker_steps schedule = 8
  /\ 2 * length (urls site_tree) = 8
  /\ queue_joined finished = true
  /\ length schedule = 12
  /\ length schedule
     <= 2 * length (urls site_tree) + 1
        + length (flat_map (@page_divisions library web) (urls site_tree)).
Proof.
  assert (Hsite : @site library web site_tree = true)
    by (vm_compute; reflexivity).
  assert (Hexec : @exec library (served web)
                    (run_queue (root site_tree) 2) schedule
                  = Some finished)
    by (vm_compute; reflexivity).
  split; [exact Hsite|]. split; [exact Hexec|].
  destruct (@run_length library web site_tree 2 schedule finished
              Hsite Hexec) as (_ & Hjoin & Hlen).
  split; [reflexivity|]. split; [reflexivity|].
  split; [apply Hjoin; reflexivity|].
  split; [reflexivity|exact Hlen].
Defined.

(** The three rows of the site of four pages. *)
Lemma crawl_output_witness :
  @site library web site_tree = true
  /\ @reachable library (served web) (root site_tree) 2 finished
  /\ queue_joined finished = true
  /\ queue_writer_joined finished = true
  /\ Permutation (data_rows finished)
       [[#"110000000000"; #"Beijing"; #"province"];
        [#"120000000000"; #"Tianjin"; #"province"];
        [#"110100000000"; #"Beijing City"; #"city"]]
  /\ csvfile (sh finished) = Some (fieldnames :: data_rows finished).
Proof.
  assert (Hsite : @site library web site_tree = true)
    by (vm_compute; reflexivity).
  assert (Hjoin : queue_joined finished = true)
    by (vm_compute; reflexivity).
  assert (Hjoin' : queue_writer_joined finished = true)
    by (vm_compute; reflexivity).
  split; [exact Hsite|]. split; [exact finished_reachable|].
  split; [exact Hjoin|]. split; [exact Hjoin'|].
  destruct (@crawl_output library web site_tree 2 finished Hsite
              finished_reachable Hjoin Hjoin') as (Hperm & Hfile).
  split.
  - exact Hperm.
  - apply Hfile. vm_compute. discriminate.
Defined.

(** The address for the year 2023, which is not that for 2024. *)
Lemma top_url_of_year_witness :
  TOP_URL (Args.year args_2023)
  = #"http://www.stats.gov.cn/sj/tjbz/tjyqhdmhcxhfdm/2023/"
  /\ TOP_URL (Args.year args_2023) <> TOP_URL 2024
  /\ pending (main args_2023)
     = [#"http://www.stats.gov.cn/sj/tjbz/tjyqhdmhcxhfdm/2023/"].
Proof.
  destruct (top_url_of_year args_2023) as (_ & _ & Hyear & Hpending & _).
  split; [vm_compute; reflexivity|]. split.
  - intro E. apply Hyear in E. discriminate E.
  - exact Hpending.
Defined.

End MoreRuns.
